(** * kyaml/kio/filters/container.go: function scoping of ContainerFilter

    A shallow embedding of [ContainerFilter] (scope resolution, the
    partition of the input Resources, the invocation of the function and
    the merge of its output), of [StringToStorageMount], and of the parts
    of Go's [strings] and [path] packages they call. *)

From Stdlib Require Import String Ascii List ZArith Lia Bool.
From stdpp Require Import base option list gmap strings pretty.

Local Open Scope string_scope.
Local Open Scope list_scope.

(** ** Byte strings

    A Go string is a sequence of bytes; [string] is used for it, one
    [ascii] per byte. *)

Definition bytes (s : string) : list ascii := list_ascii_of_string s.
Definition of_bytes (l : list ascii) : string := string_of_list_ascii l.

(** [s[i:]] for [i <= len(s)] *)
Fixpoint sliceFrom (i : nat) (s : string) : string :=
  match i, s with
  | O, _ => s
  | S i', String _ s' => sliceFrom i' s'
  | S _, EmptyString => EmptyString
  end.

(** [s[:i]] for [i <= len(s)] *)
Definition sliceTo (i : nat) (s : string) : string := String.substring 0 i s.

(** ** Package strings of the Go library *)

Module strings.

(** [HasPrefix(s, prefix)]: [len(s) >= len(prefix) && s[:len(prefix)] == prefix] *)
Definition HasPrefix (s prefix : string) : bool := String.prefix prefix s.

(** [Index(s, substr)]: the index of the first instance of [substr] in
    [s]; [None] stands for Go's [-1]. *)
Fixpoint Index (s substr : string) : option nat :=
  if String.prefix substr s then Some O
  else match s with
       | EmptyString => None
       | String _ s' => S <$> Index s' substr
       end.

(** The loop of [Count] for a separator that is not empty: every round
    drops at least one byte of [s], so [String.length s] rounds are
    enough. *)
Fixpoint countLoop (fuel : nat) (s substr : string) (n : nat) : nat :=
  match fuel with
  | O => n
  | S fuel' =>
      match Index s substr with
      | None => n
      | Some i => countLoop fuel' (sliceFrom (i + String.length substr) s) substr (S n)
      end
  end.

(** [Count(s, substr)], the number of non-overlapping instances. For the
    empty [substr] Go counts the code points of [s] plus one; here the
    bytes are counted, the same number on ASCII text. *)
Definition Count (s substr : string) : nat :=
  if String.eqb substr "" then S (String.length s)
  else countLoop (String.length s) s substr O.

(** [explode(s, n)] on bytes *)
Fixpoint explode (s : string) (n : nat) : list string :=
  match n, s with
  | O, _ => []
  | _, EmptyString => []
  | S O, _ => [s]
  | S n', String c s' => String c EmptyString :: explode s' n'
  end.

(** The loop of [genSplit] with [sepSave = 0]: [k] is [n - 1], the most
    cuts that are made. *)
Fixpoint splitLoop (k : nat) (s sep : string) : list string :=
  match k with
  | O => [s]
  | S k' =>
      match Index s sep with
      | None => [s]
      | Some m => sliceTo m s :: splitLoop k' (sliceFrom (m + String.length sep) s) sep
      end
  end.

(** [genSplit(s, sep, 0, n)] *)
Definition genSplit (s sep : string) (n : Z) : list string :=
  if (n =? 0)%Z then []
  else if String.eqb sep "" then
    explode s (if (n <? 0)%Z then String.length s else Z.to_nat n)
  else
    let n := if (n <? 0)%Z then S (Count s sep) else Z.to_nat n in
    splitLoop (pred n) s sep.

Definition SplitN (s sep : string) (n : Z) : list string := genSplit s sep n.
Definition Split (s sep : string) : list string := genSplit s sep (-1).

End strings.

(** ** Package path of the Go library *)

Module path.

Definition slash : ascii := "/"%char.
Definition dot : ascii := "."%char.

(** [bytealg.LastIndexByteString(s, c)]; [None] stands for [-1]. *)
Fixpoint LastIndexByte (s : list ascii) (c : ascii) : option nat :=
  match s with
  | [] => None
  | b :: s' =>
      match LastIndexByte s' c with
      | Some i => Some (S i)
      | None => if Ascii.eqb b c then Some O else None
      end
  end.

(** [Split(path)]: [path[:i+1], path[i+1:]] for [i] the last slash. *)
Definition Split (p : string) : string * string :=
  match LastIndexByte (bytes p) slash with
  | None => ("", p)
  | Some i => (sliceTo (S i) p, sliceFrom (S i) p)
  end.

(** The bytes of a path element: up to the next slash, and what is left. *)
Fixpoint element (p : list ascii) : list ascii * list ascii :=
  match p with
  | [] => ([], [])
  | c :: p' =>
      if Ascii.eqb c slash then ([], p)
      else let '(e, rest) := element p' in (c :: e, rest)
  end.

(** The buffer of [Clean] ([lazybuf]) is the list of the bytes written so
    far, the last one first; [out.w] is its length. Backtracking over a
    [..] element is
    [out.w--; for out.w > dotdot && out.index(out.w) != '/' { out.w-- }]. *)
Fixpoint backtrack (out : list ascii) (dotdot : nat) : list ascii :=
  match out with
  | [] => []
  | c :: out' =>
      if (dotdot <? length out')%nat && negb (Ascii.eqb c slash)
      then backtrack out' dotdot
      else out'
  end.

Definition endsElement (p : list ascii) : bool :=
  match p with
  | [] => true
  | c :: _ => Ascii.eqb c slash
  end.

(** The loop [for r < n] of [Clean] over [p = path[r:]]. Every round reads
    at least one byte; [None] is returned when [fuel] rounds were not
    enough. *)
Fixpoint cleanLoop (fuel : nat) (rooted : bool) (p out : list ascii) (dotdot : nat)
  : option (list ascii) :=
  match p with
  | [] => Some out
  | c :: p1 =>
      match fuel with
      | O => None
      | S fuel' =>
          if Ascii.eqb c slash then
            (* empty path element *)
            cleanLoop fuel' rooted p1 out dotdot
          else if Ascii.eqb c dot && endsElement p1 then
            (* . element *)
            cleanLoop fuel' rooted p1 out dotdot
          else if Ascii.eqb c dot
                  && match p1 with
                     | c1 :: p2 => Ascii.eqb c1 dot && endsElement p2
                     | [] => false
                     end then
            (* .. element: remove to last / *)
            let p2 := tl p1 in
            if (dotdot <? length out)%nat then
              cleanLoop fuel' rooted p2 (backtrack out dotdot) dotdot
            else if negb rooted then
              let out1 := if (0 <? length out)%nat then slash :: out else out in
              let out2 := dot :: dot :: out1 in
              cleanLoop fuel' rooted p2 out2 (length out2)
            else cleanLoop fuel' rooted p2 out dotdot
          else
            (* real path element: add slash if needed, copy element *)
            let out1 :=
              if (rooted && negb (length out =? 1)%nat)
                 || (negb rooted && negb (length out =? 0)%nat)
              then slash :: out else out in
            let '(e, rest) := element p in
            cleanLoop fuel' rooted rest (rev e ++ out1) dotdot
      end
  end.

(** [Clean(path)] *)
Definition Clean (p : string) : string :=
  match bytes p with
  | [] => "."
  | c :: _ =>
      let rooted := Ascii.eqb c slash in
      let n := String.length p in
      let res :=
        if rooted then cleanLoop n rooted (tl (bytes p)) [slash] 1
        else cleanLoop n rooted (bytes p) [] 0 in
      match res with
      | Some [] => "."
      | Some out => of_bytes (rev out)
      | None => ""
      end
  end.

(** [Dir(path)] *)
Definition Dir (p : string) : string := Clean (fst (Split p)).

(** Strip trailing slashes: [for len(path) > 0 && path[len(path)-1] == '/'],
    on the reversed bytes. *)
Fixpoint stripSlashes (r : list ascii) : list ascii :=
  match r with
  | c :: r' => if Ascii.eqb c slash then stripSlashes r' else r
  | [] => []
  end.

(** [Base(path)] *)
Definition Base (p : string) : string :=
  if String.eqb p "" then "."
  else
    let p1 := of_bytes (rev (stripSlashes (rev (bytes p)))) in
    let p2 := match LastIndexByte (bytes p1) slash with
              | Some i => sliceFrom (S i) p1
              | None => p1
              end in
    if String.eqb p2 "" then "/" else p2.

End path.

(** ** Results of Go calls

    A call either returns or panics. [error] values are [option Error],
    [None] for [nil]; a [nil] slice is the empty list. *)

Inductive panic : Type :=
| IndexOutOfRange (index len : nat).

Inductive outcome (A : Type) : Type :=
| Returns (a : A)
| Panics (p : panic).
Arguments Returns {A} a.
Arguments Panics {A} p.

Definition obind {A B : Type} (x : outcome A) (k : A -> outcome B) : outcome B :=
  match x with
  | Returns a => k a
  | Panics p => Panics p
  end.

Notation "'do' x <- e ; k" := (obind e (fun x => k))
  (at level 10, x name, e at level 100, k at level 200).

(** [l[i]] of a slice *)
Definition at_index {A : Type} (l : list A) (i : nat) : outcome A :=
  match l !! i with
  | Some x => Returns x
  | None => Panics (IndexOutOfRange i (length l))
  end.

Inductive Error : Type :=
| ErrorString (msg : string)
| Wrapped (err : Error)
| ExitError (code : Z).

Module errors.
(** Modelled from the spec: [errors.Wrap] of kyaml/errors, which is not
    among the sources; the spec has scope resolution surface "a wrapped
    error". *)
Definition Wrap (err : Error) : Error := Wrapped err.
End errors.

(** ** Resources *)

(** Modelled from the spec: [yaml.ResourceMeta] of kyaml/yaml, which is
    not among the sources; the metadata view exposes the kind, the name,
    the namespace and a mapping of string annotations. *)
Record ResourceMeta : Type := mkMeta {
  Kind : string;
  Name : string;
  Namespace : string;
  Annotations : gmap string string
}.

Inductive NodeStyle : Type := DefaultStyle | FlowStyle.

(** Modelled from the spec: [yaml.RNode] of kyaml/yaml, which is not among
    the sources; an opaque document with a metadata lookup that can fail,
    a serialization style and a body this program never inspects. *)
Record RNode : Type := mkRNode {
  Style : NodeStyle;
  meta : Error + ResourceMeta;
  body : string
}.

Definition zeroMeta : ResourceMeta := mkMeta "" "" "" ∅.

(** Modelled from the spec: [rn.GetMeta()] of kyaml/yaml, the metadata
    lookup; it returns the metadata, or the zero value and the error. *)
Definition GetMeta (rn : RNode) : ResourceMeta * option Error :=
  match meta rn with
  | inr m => (m, None)
  | inl err => (zeroMeta, Some err)
  end.

(** Modelled from the spec: [yaml.SetAnnotation(key, value)] of kyaml/yaml
    applied to a node whose metadata can be read; it writes the annotation
    and nothing else. *)
Definition SetAnnotation (key value : string) (rn : RNode) : RNode :=
  match meta rn with
  | inr m =>
      mkRNode (Style rn)
        (inr (mkMeta (Kind m) (Name m) (Namespace m) (<[key := value]> (Annotations m))))
        (body rn)
  | inl _ => rn
  end.

Module kioutil.
(** Modelled from the spec: the keys of the origin-path and of the index
    annotation, constants of kio/kioutil, which is not among the
    sources. *)
Definition PathAnnotation : string := "config.kubernetes.io/path".
Definition IndexAnnotation : string := "config.kubernetes.io/index".
End kioutil.

(** The origin-path annotation of a node, when its metadata can be read and
    has one. *)
Definition originPath (rn : RNode) : option string :=
  match GetMeta rn with
  | (m, None) => Annotations m !! kioutil.PathAnnotation
  | (_, Some _) => None
  end.

(** ** StorageMount *)

(** The type is declared outside container.go; these are the fields
    container.go assigns and prints. *)
Record StorageMount : Type := mkStorageMount {
  MountType : string;
  Src : string;
  DstPath : string
}.

(** [fmt.Sprintf("type=%s,src=%s,dst=%s:ro", s.MountType, s.Src, s.DstPath)] *)
Definition StorageMount_String (s : StorageMount) : string :=
  "type=" +:+ MountType s +:+ ",src=" +:+ Src s +:+ ",dst=" +:+ DstPath s +:+ ":ro".

(** The first loop of [StringToStorageMount]: [m[keyVal[0]] = keyVal[1]]
    for every option. *)
Fixpoint readOptions (options : list string) (m : gmap string string)
  : outcome (gmap string string) :=
  match options with
  | [] => Returns m
  | option :: rest =>
      let keyVal := strings.SplitN option "=" 2 in
      do k <- at_index keyVal 0;
      do v <- at_index keyVal 1;
      readOptions rest (<[k := v]> m)
  end.

(** The body of the second loop, the [switch] on the key. *)
Definition setField (key value : string) (sm : StorageMount) : StorageMount :=
  if String.eqb key "type" then mkStorageMount value (Src sm) (DstPath sm)
  else if String.eqb key "src" then mkStorageMount (MountType sm) value (DstPath sm)
  else if String.eqb key "dst" then mkStorageMount (MountType sm) (Src sm) value
  else sm.

(** StringToStorageMount: the map [m] of the options, then the mount built
    by ranging over [m]. *)
Definition StringToStorageMount (s : string) : outcome StorageMount :=
  let options := strings.Split s "," in
  do m <- readOptions options ∅;
  Returns (map_fold setField (mkStorageMount "" "" "") m).

(** ** ContainerFilter *)

(** ContainerFilter filters Resources using a container image. [Config] is
    a configuration that is there, not a nil pointer; [checkInput], the
    hook of the tests, is left out. *)
Record ContainerFilter : Type := mkContainerFilter {
  Image : string;
  Network : string;
  StorageMounts : list StorageMount;
  Config : RNode;
  GlobalScope : bool;
  ResultsFile : string;
  Results : option RNode;
  DeferFailure : bool;
  Exit : option Error;
  SetFlowStyleForConfig : bool;
  args : list string
}.

Definition withConfig (x : RNode) (c : ContainerFilter) : ContainerFilter :=
  mkContainerFilter (Image c) (Network c) (StorageMounts c) x (GlobalScope c)
    (ResultsFile c) (Results c) (DeferFailure c) (Exit c) (SetFlowStyleForConfig c) (args c).

Definition withResults (x : option RNode) (c : ContainerFilter) : ContainerFilter :=
  mkContainerFilter (Image c) (Network c) (StorageMounts c) (Config c) (GlobalScope c)
    (ResultsFile c) x (DeferFailure c) (Exit c) (SetFlowStyleForConfig c) (args c).

Definition withExit (x : option Error) (c : ContainerFilter) : ContainerFilter :=
  mkContainerFilter (Image c) (Network c) (StorageMounts c) (Config c) (GlobalScope c)
    (ResultsFile c) (Results c) (DeferFailure c) x (SetFlowStyleForConfig c) (args c).

Definition withArgs (x : list string) (c : ContainerFilter) : ContainerFilter :=
  mkContainerFilter (Image c) (Network c) (StorageMounts c) (Config c) (GlobalScope c)
    (ResultsFile c) (Results c) (DeferFailure c) (Exit c) (SetFlowStyleForConfig c) x.

(** [c.GetExit()] *)
Definition GetExit (c : ContainerFilter) : option Error := Exit c.

(** functionsDirectoryName is keyword directory name for functions scoped 1
    directory higher *)
Definition functionsDirectoryName : string := "functions".

(** getFunctionScope returns the path of the directory containing the
    function config, or its parent directory if the base directory is named
    "functions" *)
Definition getFunctionScope (c : ContainerFilter) : string * option Error :=
  let '(m, err) := GetMeta (Config c) in
  match err with
  | Some err => ("", Some (errors.Wrap err))
  | None =>
      match Annotations m !! kioutil.PathAnnotation with
      | None => ("", None)
      | Some p =>
          let functionDir := path.Clean (path.Dir p) in
          let functionDir :=
            if String.eqb (path.Base functionDir) functionsDirectoryName
            then path.Dir functionDir
            else functionDir in
          (functionDir, None)
      end
  end.

(** The loop of [scope] over [nodes[i:]], with the two slices built so
    far. *)
Fixpoint scopeLoop (dir : string) (nodes input saved : list RNode)
  : list RNode * list RNode * option Error :=
  match nodes with
  | [] => (input, saved, None)
  | node :: rest =>
      let '(m, err) := GetMeta node in
      match err with
      | Some err => ([], [], Some err)
      | None =>
          match Annotations m !! kioutil.PathAnnotation with
          | None =>
              (* don't know where it came from: consider it out of scope *)
              scopeLoop dir rest input (saved ++ [node])
          | Some p =>
              let resourceDir := path.Clean (path.Dir p) in
              let resourceDir :=
                if String.eqb (path.Base resourceDir) functionsDirectoryName
                then path.Dir resourceDir
                else resourceDir in
              if negb (strings.HasPrefix resourceDir dir) then
                scopeLoop dir rest input (saved ++ [node])
              else
                (* this input is scoped under the function *)
                scopeLoop dir rest (input ++ [node]) saved
          end
      end
  end.

(** scope partitions the input nodes into 2 slices. *)
Definition scope (c : ContainerFilter) (dir : string) (nodes : list RNode)
  : list RNode * list RNode * option Error :=
  if GlobalScope c then (nodes, [], None)
  else if String.eqb dir "" || String.eqb dir "." then (nodes, [], None)
  else scopeLoop dir nodes [] [].

(** ** The collaborators of Filter

    What [Filter] calls outside this file: the environment of the process,
    the writer and the reader of the wire format, the run of the command,
    the serialization of the results and the file system. They are taken
    as they answer. *)
Record World : Type := mkWorld {
  (** [os.Environ()] as [getArgs] and [getCommand] read it ([getArgs] sets
      LOG_TO_STDERR and STRUCTURED_RESULTS first) *)
  os_Environ : list string;
  (** [kio.ByteWriter{..., FunctionConfig: config}.Write(input)]: the bytes
      written and the error *)
  ByteWriter_Write : RNode -> list RNode -> string * option Error;
  (** [kio.ByteReader.Read()] on the bytes of the output: the Resources,
      [r.Results] and the error *)
  ByteReader_Read : string -> list RNode * option RNode * option Error;
  (** [cmd.Run()] for the arguments, the environment and the standard
      input: the standard output and the error *)
  cmd_Run : list string -> list string -> string -> string * option Error;
  (** [rn.String()] *)
  RNode_String : RNode -> string * option Error;
  (** [ioutil.WriteFile(name, data, 0600)] *)
  ioutil_WriteFile : string -> string -> option Error;
  (** the default path of a Resource emitted by a function in [dir] *)
  defaultPath : string -> ResourceMeta -> string
}.

(** getArgs returns the command + args to run to spawn the container.
    [strings.Split] with a separator that is not empty never returns an
    empty slice, so [tokens[0]] is there. *)
Definition getArgs (w : World) (c : ContainerFilter) : list string :=
  let network := if negb (String.eqb (Network c) "") then Network c else "none" in
  let args := ["docker"; "run"; "--rm";
               "-i"; "-a"; "STDIN"; "-a"; "STDOUT"; "-a"; "STDERR";
               "--network"; network;
               "--user"; "nobody";
               "--security-opt=no-new-privileges"] in
  let args :=
    fold_left (fun args storageMount => args ++ ["--mount"; StorageMount_String storageMount])
      (StorageMounts c) args in
  let args :=
    fold_left (fun args pair =>
                 let tokens := strings.Split pair "=" in
                 let t0 := hd "" tokens in
                 if String.eqb t0 "" then args else args ++ ["-e"; t0])
      (os_Environ w) args in
  args ++ [Image c].

(** A command: its arguments ([Path] and [Args]) and [Env]. *)
Record Cmd : Type := mkCmd { cmd_args : list string; cmd_Env : list string }.

(** getCommand returns a command which will apply the Filter using the
    container image *)
Definition getCommand (w : World) (c : ContainerFilter) : ContainerFilter * Cmd :=
  let c :=
    if SetFlowStyleForConfig c
    then withConfig (mkRNode FlowStyle (meta (Config c)) (body (Config c))) c
    else c in
  let c := if (length (args c) =? 0)%nat then withArgs (getArgs w c) c else c in
  (c, mkCmd (args c) (os_Environ w)).

(** doResults writes the results to a file if configured to do so, and
    keeps them in the filter. *)
Definition doResults (w : World) (c : ContainerFilter) (results : option RNode)
  : ContainerFilter * option Error :=
  let write :=
    match results with
    | Some r =>
        if negb (String.eqb (ResultsFile c) "") then
          let '(text, err) := RNode_String w r in
          match err with
          | Some err => Some err
          | None => ioutil_WriteFile w (ResultsFile c) text
          end
        else None
    | None => None
    end in
  match write with
  | Some err => (c, Some err)
  | None =>
      match results with
      | Some r => (withResults (Some r) c, None)
      | None => (c, None)
      end
  end.

(** Modelled from the spec: the pass of [kioutil.DefaultPathAnnotation]
    over the nodes; kio/kioutil is not among the sources. It adds the
    origin-path and the index annotation to every Resource lacking the
    origin-path annotation and never touches a Resource that has it; the
    index tells apart the Resources given the same default path, counted in
    [counts]. The default path itself (scope directory, file stem of the
    function, namespace, [<kind>_<name>.yaml]) is [defaultPath] of the
    World. [Filter] handles an error of this call: it is the error of a
    metadata lookup that fails. *)
Fixpoint defaultLoop (w : World) (dir : string) (counts : gmap string nat)
  (nodes : list RNode) : list RNode * option Error :=
  match nodes with
  | [] => ([], None)
  | node :: rest =>
      let '(m, err) := GetMeta node in
      match err with
      | Some err => ([], Some err)
      | None =>
          match Annotations m !! kioutil.PathAnnotation with
          | Some _ =>
              let '(rest', err) := defaultLoop w dir counts rest in
              (node :: rest', err)
          | None =>
              let p := defaultPath w dir m in
              let i := default O (counts !! p) in
              let node' :=
                SetAnnotation kioutil.IndexAnnotation (pretty i)
                  (SetAnnotation kioutil.PathAnnotation p node) in
              let '(rest', err) := defaultLoop w dir (<[p := S i]> counts) rest in
              (node' :: rest', err)
          end
      end
  end.

(** Modelled from the spec: [kioutil.DefaultPathAnnotation(dir, nodes)].
    Go changes the nodes in place and returns the error; here the changed
    slice is returned with it. *)
Definition DefaultPathAnnotation (w : World) (dir : string) (nodes : list RNode)
  : list RNode * option Error :=
  match defaultLoop w dir ∅ nodes with
  | (nodes', None) => (nodes', None)
  | (_, Some err) => ([], Some err)
  end.

(** Filter: the Resources and the error it returns, and the filter as the
    call leaves it ([args], [Config], [Exit] and [Results] are assigned).
    The test hook [checkInput] is nil. *)
Definition Filter (w : World) (c : ContainerFilter) (nodes : list RNode)
  : ContainerFilter * (list RNode * option Error) :=
  (* get the command to filter the Resources *)
  let '(c, cmd) := getCommand w c in
  (* only process Resources scoped to this function, save the others *)
  let '(functionDir, err) := getFunctionScope c in
  match err with
  | Some err => (c, ([], Some err))
  | None =>
  let '(input, saved, err) := scope c functionDir nodes in
  match err with
  | Some err => (c, ([], Some err))
  | None =>
  (* write the input *)
  let '(in_, err) := ByteWriter_Write w (Config c) input in
  match err with
  | Some err => (c, ([], Some err))
  | None =>
  (* don't exit immediately if the function fails -- write out the validation *)
  let '(out, exit) := cmd_Run w (cmd_args cmd) (cmd_Env cmd) in_ in
  let c := withExit exit c in
  let '(output, results, err) := ByteReader_Read w out in
  match err with
  | Some err => (c, ([], Some err))
  | None =>
  let '(c, err) := doResults w c results in
  match err with
  | Some err => (c, ([], Some err))
  | None =>
  if bool_decide (Exit c <> None) && negb (DeferFailure c) then
    (c, (output ++ saved, Exit c))
  else
  (* annotate any generated Resources with a path and index if they don't
     already have one *)
  let '(output, err) := DefaultPathAnnotation w functionDir output in
  match err with
  | Some err => (c, ([], Some err))
  | None =>
  (* emit both the Resources output from the function, and the out-of-scope
     Resources which were not provided to the function *)
  (c, (output ++ saved, None))
  end end end end end end.

(** ** The words of the specification

    The notions the claims are stated with, to compare the code with. *)

(** The rewrite of a directory whose last element is the reserved name. *)
Definition rewriteForReservedDir (d : string) : string :=
  if String.eqb (path.Base d) functionsDirectoryName then path.Dir d else d.

(** The directory a Resource read from [p] is scoped by. *)
Definition scopedDir (p : string) : string :=
  rewriteForReservedDir (path.Clean (path.Dir p)).

(** The test [scope] makes on a node once [dir] names a directory. *)
Definition inScope (dir : string) (node : RNode) : bool :=
  match originPath node with
  | Some p => strings.HasPrefix (scopedDir p) dir
  | None => false
  end.

Definition readable (node : RNode) : Prop := (GetMeta node).2 = None.

(** A scope directory for which [scope] looks at the nodes. *)
Definition scoped (c : ContainerFilter) (dir : string) : Prop :=
  GlobalScope c = false /\ dir <> "" /\ dir <> ".".

#[local] Instance readable_dec node : Decision (readable node).
Proof. unfold readable. apply _. Defined.

(** The test of the specification: [d] is [dir] itself or below it, path
    element by path element. *)
Definition underDir (dir d : string) : bool :=
  String.eqb d dir || strings.HasPrefix d (dir +:+ "/").

Definition indexAnnotation (rn : RNode) : option string :=
  match GetMeta rn with
  | (m, None) => Annotations m !! kioutil.IndexAnnotation
  | (_, Some _) => None
  end.

(** What defaulting makes of one node. *)
Definition defaulted (w : World) (dir : string) (node node' : RNode) : Prop :=
  match originPath node with
  | Some _ => node' = node
  | None =>
      exists (m : ResourceMeta) (i : nat),
        GetMeta node = (m, None)
        /\ originPath node' = Some (defaultPath w dir m)
        /\ indexAnnotation node' = Some (pretty i)
  end.

(** The call reaches the check of the exit status: the scope is resolved,
    the nodes are partitioned, the input is written, the command has run
    with [exit], its output is decoded to [output] and the results are
    kept; [c'] is the filter then. *)
Record Invoked (w : World) (c : ContainerFilter) (nodes : list RNode)
  (functionDir : string) (input saved output : list RNode)
  (exit : option Error) (c' : ContainerFilter) : Prop := mkInvoked {
  inv_functionDir : getFunctionScope c = (functionDir, None);
  inv_scope : scope c functionDir nodes = (input, saved, None);
  inv_run :
    exists in_ out results,
      ByteWriter_Write w (Config (getCommand w c).1) input = (in_, None)
      /\ cmd_Run w (cmd_args (getCommand w c).2) (cmd_Env (getCommand w c).2) in_ = (out, exit)
      /\ ByteReader_Read w out = (output, results, None)
      /\ doResults w (withExit exit (getCommand w c).1) results = (c', None)
}.

(** The mount the second loop of [StringToStorageMount] builds from the
    map of the options. *)
Definition mountOf (m : gmap string string) : StorageMount :=
  mkStorageMount (default "" (m !! "type")) (default "" (m !! "src"))
    (default "" (m !! "dst")).

(** ** Sample Resources and a sample World *)

Definition resourceAt (p kind name : string) : RNode :=
  mkRNode DefaultStyle (inr (mkMeta kind name "" {[ kioutil.PathAnnotation := p ]})) "".

Definition resourceNoPath (kind name : string) : RNode :=
  mkRNode DefaultStyle (inr (mkMeta kind name "" ∅)) "".

Definition unreadable (text : string) : RNode :=
  mkRNode DefaultStyle (inl (ErrorString "cannot unmarshal metadata")) text.

(** A filter for the image [img] whose configuration was read from [p]. *)
Definition filterAt (p img : string) (global defer : bool) : ContainerFilter :=
  mkContainerFilter img "" [] (resourceAt p "Example" "fn") global "" None defer None false [].

(** A World where the function emits [output] and its process returns
    [exit]. *)
Definition cannedWorld (output : list RNode) (exit : option Error) : World :=
  mkWorld ["HOME=/root"]
    (fun _ _ => ("ResourceList", None))
    (fun _ => (output, None, None))
    (fun _ _ _ => ("ResourceList", exit))
    (fun _ => ("", None))
    (fun _ _ => None)
    (fun dir m => dir +:+ "/" +:+ Kind m +:+ "_" +:+ Name m +:+ ".yaml").

(** The sample of the specification: a function read from [dir/fn.yaml]
    and Resources read from [dir], from below [dir] and from elsewhere;
    the function emits the first Resource again and a new one, and its
    process exits with status 1. *)
Definition sampleNodes : list RNode :=
  [resourceAt "dir/a.yaml" "ConfigMap" "a"; resourceAt "dir/sub/b.yaml" "ConfigMap" "b";
   resourceAt "other/c.yaml" "ConfigMap" "c"].

Definition sampleOutput : list RNode :=
  [resourceAt "dir/a.yaml" "ConfigMap" "a"; resourceNoPath "Foo" "bar"].

Definition sampleWorld : World := cannedWorld sampleOutput (Some (ExitError 1)).

Definition sampleFilter (defer : bool) : ContainerFilter :=
  filterAt "dir/fn.yaml" "example.com/fn" false defer.

(** ** Plain paths

    A path element is plain when it is not empty, has no slash and is
    neither [.] nor [..]; a plain path is a list of plain elements joined
    by slashes, as the reader of a directory tree writes origin paths. *)

Definition plain (e : list ascii) : Prop :=
  e <> [] /\ ~ In path.slash e /\ e <> [path.dot] /\ e <> [path.dot; path.dot].

Fixpoint joinElements (es : list (list ascii)) : list ascii :=
  match es with
  | [] => []
  | [e] => e
  | e :: rest => e ++ path.slash :: joinElements rest
  end.

Definition plainPath (es : list (list ascii)) : string := of_bytes (joinElements es).

(** ** The options of a mount

    The key and the value [StringToStorageMount] reads from an option, and
    the value the options give a key. *)

(** [keyVal[0]]: the option up to its first [=], all of it when there is
    none. *)
Definition keyOf (option : string) : string :=
  match strings.Index option "=" with
  | Some m => sliceTo m option
  | None => option
  end.

(** [keyVal[1]]: the option after its first [=]. *)
Definition valueOf (option : string) : string :=
  match strings.Index option "=" with
  | Some m => sliceFrom (m + 1) option
  | None => ""
  end.

(** The value of the last option with the key [key], the empty string
    when no option has it. *)
Definition lastValue (key : string) (options : list string) : string :=
  match find (fun o => String.eqb (keyOf o) key) (rev options) with
  | Some o => valueOf o
  | None => ""
  end.

(** ** The arguments of the command *)

(** The arguments [getArgs] adds for a mount. *)
Definition mountArgs (sm : StorageMount) : list string :=
  ["--mount"; StorageMount_String sm].

(** The arguments [getArgs] adds for an entry [name=value] of the
    environment: the name only, and nothing for an empty name. *)
Definition exportArgs (pair : string) : list string :=
  if String.eqb (keyOf pair) "" then [] else ["-e"; keyOf pair].

(** ** IsReconcilerFilter *)

(** IsReconcilerFilter filters Resources based on whether or not they are
    Reconciler Resource. *)
Record IsReconcilerFilter : Type := mkIsReconcilerFilter {
  ExcludeReconcilers : bool;
  IncludeNonReconcilers : bool
}.

(** The loop of [IsReconcilerFilter.Filter] over [inputs[i:]].
    [GetFunctionSpec] is declared in another file of the package;
    [isFn n] stands for [GetFunctionSpec(n) != nil]. *)
Fixpoint reconcilerLoop (isFn : RNode -> bool) (c : IsReconcilerFilter)
  (inputs out : list RNode) : list RNode :=
  match inputs with
  | [] => out
  | node :: rest =>
      let isFnResource := isFn node in
      let out := if isFnResource && negb (ExcludeReconcilers c) then out ++ [node] else out in
      let out := if negb isFnResource && IncludeNonReconcilers c then out ++ [node] else out in
      reconcilerLoop isFn c rest out
  end.

(** Filter implements kio.Filter *)
Definition IsReconcilerFilter_Filter (isFn : RNode -> bool) (c : IsReconcilerFilter)
  (inputs : list RNode) : list RNode * option Error :=
  (reconcilerLoop isFn c inputs [], None).

(** Whether [IsReconcilerFilter.Filter] keeps a node. *)
Definition keeps (isFn : RNode -> bool) (c : IsReconcilerFilter) (node : RNode) : bool :=
  if isFn node then negb (ExcludeReconcilers c) else IncludeNonReconcilers c.

(** A World where the function emits results and writing them fails. *)
Definition fullDiskWorld : World :=
  mkWorld []
    (fun _ _ => ("ResourceList", None))
    (fun _ => ([], Some (resourceNoPath "Results" "results"), None))
    (fun _ _ _ => ("ResourceList", Some (ExitError 1)))
    (fun _ => ("results", None))
    (fun _ _ => Some (ErrorString "no space left on device"))
    (fun dir m => dir +:+ "/" +:+ Kind m +:+ "_" +:+ Name m +:+ ".yaml").

(** The filter of the sample, writing its results to a file. *)
Definition resultsFilter (defer : bool) : ContainerFilter :=
  mkContainerFilter "example.com/fn" "" [] (resourceAt "dir/fn.yaml" "Example" "fn")
    false "results.yaml" None defer None false [].

(** ** The cleaned directory, element by element

    The words of the specification for the scope directory, to compare
    [path.Clean], [path.Dir] and [path.Base] with.

    The rules of the documentation of [path.Clean], on the list of the
    elements of a path: an empty element and a [.] element are dropped; a
    [..] element drops the element kept before it when that is not [..],
    is dropped itself at the beginning of a rooted path, and is kept
    otherwise. None of these definitions uses package path. *)













(** ** The claim on the exit status *)

(** The claim on the exit status as it is stated, for one call of Filter:
    when the command exits with an error and its output is decoded, Filter
    with DeferFailure unset returns the decoded output followed by the
    Resources out of scope and an error; with DeferFailure set it returns
    the same list and no error, and GetExit returns the error of the
    command. *)
Definition exitStatusClaim (w : World) (c : ContainerFilter) (nodes : list RNode) : Prop :=
  forall functionDir input saved in_ out err output results,
    getFunctionScope c = (functionDir, None) ->
    scope c functionDir nodes = (input, saved, None) ->
    ByteWriter_Write w (Config (getCommand w c).1) input = (in_, None) ->
    cmd_Run w (cmd_args (getCommand w c).2) (cmd_Env (getCommand w c).2) in_
      = (out, Some err) ->
    ByteReader_Read w out = (output, results, None) ->
    (DeferFailure c = false ->
       exists e, (Filter w c nodes).2 = (output ++ saved, Some e))
    /\ (DeferFailure c = true ->
          (Filter w c nodes).2 = (output ++ saved, None)
          /\ GetExit (Filter w c nodes).1 = Some err).

(** * Properties *)

(** ** The model of the library on the examples and the test tables of
    the Go packages *)

Example Split_options :
  strings.Split "type=bind,src=/a,dst=/b" "," = ["type=bind"; "src=/a"; "dst=/b"].
Proof. reflexivity. Qed.

Example Split_empty : strings.Split "" "," = [""].
Proof. reflexivity. Qed.

Example SplitN_keyVal : strings.SplitN "src=/a=b" "=" 2 = ["src"; "/a=b"].
Proof. reflexivity. Qed.

Example SplitN_no_sep : strings.SplitN "readonly" "=" 2 = ["readonly"].
Proof. reflexivity. Qed.

Example Split_tests :
  map (fun s => strings.Split s ",") ["a,b,c"; ",a,"; "abc"; ""; ",,"]
  = [["a"; "b"; "c"]; [""; "a"; ""]; ["abc"]; [""]; [""; ""; ""]].
Proof. reflexivity. Qed.

Example SplitN_tests :
  map (fun n => strings.SplitN "a,b,c,d" "," n) [0; 1; 2; 3; 4; 5; -1]%Z
  = [[]; ["a,b,c,d"]; ["a"; "b,c,d"]; ["a"; "b"; "c,d"]; ["a"; "b"; "c"; "d"];
     ["a"; "b"; "c"; "d"]; ["a"; "b"; "c"; "d"]].
Proof. reflexivity. Qed.

Example Split_long_separator :
  strings.Split "1....2....3....4" "..." = ["1"; ".2"; ".3"; ".4"].
Proof. reflexivity. Qed.

(** The examples of the documentation of package path. *)
Example Clean_examples :
  map path.Clean ["a/c"; "a//c"; "a/c/."; "a/c/b/.."; "/../a/c"; "/../a/b/../././/c"; "";
                  "abc/def/.."; "../../abc"; "abc/../../def"; "/"; "a/"; "./"; "apps2/"]
  = ["a/c"; "a/c"; "a/c"; "a/c"; "/a/c"; "/a/c"; ".";
     "abc"; "../../abc"; "../def"; "/"; "a"; "."; "apps2"].
Proof. reflexivity. Qed.

Example Dir_examples :
  map path.Dir ["/a/b/c"; "a/b/c"; "/a/"; "a/"; "/"; ""; "fn.yaml"; "functions/fn.yaml"]
  = ["/a/b"; "a/b"; "/a"; "a"; "/"; "."; "."; "functions"].
Proof. reflexivity. Qed.

Example Base_examples :
  map path.Base ["/a/b"; "/"; ""; "a/functions"; "functions"; "a/b/"; "///"]
  = ["b"; "/"; "."; "functions"; "functions"; "b"; "/"].
Proof. reflexivity. Qed.

Example Clean_tests :
  map path.Clean
    [""; "abc"; "abc/def"; "a/b/c"; "."; ".."; "../.."; "../../abc"; "/abc"; "/";
     "abc/"; "abc/def/"; "a/b/c/"; "./"; "../"; "../../"; "/abc/";
     "abc//def//ghi"; "//abc"; "///abc"; "//abc//"; "abc//";
     "abc/./def"; "/./abc/def"; "abc/.";
     "abc/def/ghi/../jkl"; "abc/def/../ghi/../jkl"; "abc/def/.."; "abc/def/../..";
     "/abc/def/../.."; "abc/def/../../.."; "/abc/def/../../..";
     "abc/def/../../../ghi/jkl/../../../mno";
     "abc/./../def"; "abc//./../def"; "abc/../../././../def"]
  = ["."; "abc"; "abc/def"; "a/b/c"; "."; ".."; "../.."; "../../abc"; "/abc"; "/";
     "abc"; "abc/def"; "a/b/c"; "."; ".."; "../.."; "/abc";
     "abc/def/ghi"; "/abc"; "/abc"; "/abc"; "abc";
     "abc/def"; "/abc/def"; "abc";
     "abc/def/jkl"; "abc/jkl"; "abc"; ".";
     "/"; ".."; "/";
     "../../mno";
     "def"; "def"; "../../def"].
Proof. reflexivity. Qed.

Example Base_tests :
  map path.Base [""; "."; "/."; "/"; "////"; "x/"; "abc"; "abc/def"; "a/b/.x"; "a/b/c.";
                 "a/b/c.x"]
  = ["."; "."; "."; "/"; "/"; "x"; "abc"; "def"; ".x"; "c."; "c.x"].
Proof. reflexivity. Qed.

Example Dir_tests :
  map path.Dir [""; "."; "/."; "/"; "////"; "/foo"; "x/"; "abc"; "abc/def"; "abc////def";
                "a/b/.x"; "a/b/c."; "a/b/c.x"]
  = ["."; "."; "/"; "/"; "/"; "/"; "x"; "."; "abc"; "abc"; "a/b"; "a/b"; "a/b"].
Proof. reflexivity. Qed.

Example StringToStorageMount_bind :
  StringToStorageMount "type=bind,src=/host,dst=/mnt"
  = Returns (mkStorageMount "bind" "/host" "/mnt").
Proof. vm_compute. reflexivity. Qed.

(** ** The loops of the library run to their end *)

Lemma element_rest_length (p : list ascii) :
  length (path.element p).2 <= length p.
Proof.
  induction p as [| c p IH]; simpl; [lia |].
  destruct (Ascii.eqb c path.slash); simpl; [lia |].
  destruct (path.element p) as [e rest]. simpl in *. lia.
Qed.

(** [String.length path] rounds are enough for the loop of [Clean]. *)
Lemma cleanLoop_total fuel : forall rooted p out dotdot,
  length p <= fuel -> is_Some (path.cleanLoop fuel rooted p out dotdot).
Proof.
  induction fuel as [| fuel IH]; intros rooted p out dotdot Hlen.
  - destruct p; simpl in *; [eauto | lia].
  - destruct p as [| c p1]; [simpl; eauto |].
    simpl in Hlen. cbn [path.cleanLoop].
    destruct (Ascii.eqb c path.slash) eqn:Hslash; [apply IH; lia |].
    destruct (Ascii.eqb c path.dot && path.endsElement p1); [apply IH; lia |].
    match goal with |- context [if ?b then _ else _] => destruct b end.
    + assert (length (tl p1) <= fuel) by (destruct p1; simpl in *; lia).
      destruct (dotdot <? length out)%nat; [apply IH; assumption |].
      destruct (negb rooted); apply IH; assumption.
    + pose proof (element_rest_length p1) as Hrest.
      simpl. rewrite Hslash.
      destruct (path.element p1) as [e rest]. simpl in Hrest.
      apply IH. lia.
Qed.

Lemma bytes_length (s : string) : length (bytes s) = String.length s.
Proof. induction s as [| a s IH]; simpl; [reflexivity | rewrite IH; reflexivity]. Qed.

(** [Clean] never runs out of rounds. *)
Lemma Clean_total (p : string) :
  match bytes p with
  | [] => True
  | c :: rest =>
      is_Some (if Ascii.eqb c path.slash
               then path.cleanLoop (String.length p) true rest [path.slash] 1
               else path.cleanLoop (String.length p) false (bytes p) [] 0)
  end.
Proof.
  pose proof (bytes_length p) as Hlen.
  destruct (bytes p) as [| c rest] eqn:Hb; [exact I |].
  destruct (Ascii.eqb c path.slash); apply cleanLoop_total; simpl in *; lia.
Qed.

Lemma sliceFrom_length (k : nat) : forall s,
  String.length (sliceFrom k s) = String.length s - k.
Proof.
  induction k as [| k IH]; intros s; simpl; [lia |].
  destruct s as [| a s]; simpl; [reflexivity | apply IH].
Qed.

Lemma Index_empty (substr : string) : substr <> "" -> strings.Index "" substr = None.
Proof. destruct substr; [contradiction | reflexivity]. Qed.

(** [String.length s] rounds are enough for the loop of [Count]: more
    rounds count the same. *)
Lemma countLoop_fuel (substr : string) : substr <> "" ->
  forall fuel s n k,
    String.length s <= fuel ->
    strings.countLoop (fuel + k) s substr n = strings.countLoop fuel s substr n.
Proof.
  intros Hsub. induction fuel as [| fuel IH]; intros s n k Hlen.
  - destruct s; simpl in Hlen; [| lia].
    destruct k; [reflexivity |]. cbn [Nat.add strings.countLoop].
    rewrite Index_empty by assumption. reflexivity.
  - cbn [Nat.add strings.countLoop].
    destruct (strings.Index s substr) as [i |]; [| reflexivity].
    apply IH. rewrite sliceFrom_length.
    destruct substr; [contradiction | simpl; lia].
Qed.

(** [strings.Split] and [strings.SplitN] with a count that is not zero
    return at least the string itself. *)
Lemma splitLoop_nonempty k s sep : strings.splitLoop k s sep <> [].
Proof.
  destruct k; simpl; [discriminate |].
  destruct (strings.Index s sep); discriminate.
Qed.

Lemma Split_nonempty s sep : sep <> "" -> strings.Split s sep <> [].
Proof.
  intros Hsep. unfold strings.Split, strings.genSplit. simpl.
  destruct (String.eqb_spec sep ""); [contradiction |].
  apply splitLoop_nonempty.
Qed.

(** ** Facts on strings *)

Lemma prefix_refl (s : string) : String.prefix s s = true.
Proof.
  induction s as [| a s IH]; simpl; [reflexivity |].
  destruct (ascii_dec a a); [assumption | contradiction].
Qed.

Lemma prefix_app_l (s t u : string) :
  String.prefix (s +:+ t) u = true -> String.prefix s u = true.
Proof.
  revert u. induction s as [| a s IH]; intros u H.
  - destruct u; reflexivity.
  - destruct u as [| b u]; simpl in *; [discriminate |].
    destruct (ascii_dec a b); [apply IH; assumption | discriminate].
Qed.

(** A separator of one byte that does not occur is not found. *)
Lemma Index_absent (s : string) (c : ascii) :
  ~ In c (bytes s) -> strings.Index s (String c "") = None.
Proof.
  induction s as [| a s IH]; simpl; intros Hnot.
  - reflexivity.
  - destruct (ascii_dec c a) as [-> | Hne].
    + destruct Hnot. left. reflexivity.
    + rewrite IH; [reflexivity |]. intros Hin. apply Hnot. right. assumption.
Qed.

(** With at most one cut, [SplitN] returns the option itself or a key and a
    value. *)
Lemma SplitN_2 (option sep : string) :
  sep <> "" ->
  strings.SplitN option sep 2 =
  match strings.Index option sep with
  | None => [option]
  | Some m => [sliceTo m option; sliceFrom (m + String.length sep) option]
  end.
Proof.
  intros Hsep. unfold strings.SplitN, strings.genSplit. simpl.
  destruct (String.eqb_spec sep ""); [contradiction |].
  destruct (strings.Index option sep); reflexivity.
Qed.

(** The first loop of [StringToStorageMount] panics at the first option
    without a "=". *)
Lemma readOptions_panics (options : list string) : forall m option,
  In option options ->
  strings.Index option "=" = None ->
  readOptions options m = Panics (IndexOutOfRange 1 1).
Proof.
  induction options as [| o rest IH]; intros m option Hin Hnone.
  - destruct Hin.
  - simpl. rewrite SplitN_2 by discriminate.
    destruct (strings.Index o "=") as [i |] eqn:Hi.
    + simpl. destruct Hin as [-> | Hin]; [congruence |].
      apply (IH _ option); assumption.
    + reflexivity.
Qed.

(** ** The order of the second loop of StringToStorageMount

    Go ranges over a map in an order that is not fixed. The switch assigns
    a field from the entry of its key only, so every order of the entries
    gives the mount [map_fold] gives. *)

Lemma setField_mountOf key value (m : gmap string string) :
  setField key value (mountOf m) = mountOf (<[key := value]> m).
Proof.
  unfold setField, mountOf.
  destruct (String.eqb_spec key "type") as [-> | Ht].
  { rewrite lookup_insert_eq, !lookup_insert_ne by discriminate. reflexivity. }
  destruct (String.eqb_spec key "src") as [-> | Hs].
  { rewrite lookup_insert_eq, !lookup_insert_ne by discriminate. reflexivity. }
  destruct (String.eqb_spec key "dst") as [-> | Hd].
  { rewrite lookup_insert_eq, !lookup_insert_ne by discriminate. reflexivity. }
  rewrite !lookup_insert_ne by assumption. reflexivity.
Qed.

Lemma map_fold_setField (m : gmap string string) :
  map_fold setField (mkStorageMount "" "" "") m = mountOf m.
Proof.
  apply (map_fold_weak_ind (fun r m => r = mountOf m)).
  - reflexivity.
  - intros key value m' r _ ->. apply setField_mountOf.
Qed.

Lemma range_any_order (entries : list (string * string)) :
  fold_left (fun sm kv => setField kv.1 kv.2 sm) entries (mkStorageMount "" "" "")
  = mountOf (list_to_map (rev entries)).
Proof.
  rewrite <- fold_left_rev_right.
  induction (rev entries) as [| [key value] l IH]; [reflexivity |].
  simpl. rewrite IH. apply setField_mountOf.
Qed.

Lemma StorageMount_any_order (m : gmap string string) (entries : list (string * string)) :
  entries ≡ₚ map_to_list m ->
  fold_left (fun sm kv => setField kv.1 kv.2 sm) entries (mkStorageMount "" "" "")
  = map_fold setField (mkStorageMount "" "" "") m.
Proof.
  intros Hperm. rewrite range_any_order, map_fold_setField. f_equal.
  assert (Hrev : rev entries ≡ₚ map_to_list m).
  { rewrite <- Hperm. symmetry. apply Permutation_rev. }
  rewrite <- (list_to_map_to_list m).
  apply list_to_map_proper.
  - rewrite Hrev. apply NoDup_fst_map_to_list.
  - exact Hrev.
Qed.

(** ** The partition *)

Lemma GetMeta_readable node :
  readable node -> exists m, meta node = inr m /\ GetMeta node = (m, None).
Proof.
  unfold readable, GetMeta. destruct (meta node) as [e | m]; simpl; intros H.
  - discriminate.
  - eauto.
Qed.

Lemma GetMeta_unreadable node :
  ~ readable node -> exists err, GetMeta node = (zeroMeta, Some err).
Proof.
  unfold readable, GetMeta. destruct (meta node) as [e | m]; simpl; intros H.
  - eauto.
  - destruct H; reflexivity.
Qed.

Lemma scope_scoped c dir nodes :
  scoped c dir -> scope c dir nodes = scopeLoop dir nodes [] [].
Proof.
  intros (Hg & He & Hd). unfold scope. rewrite Hg.
  destruct (String.eqb_spec dir ""); [contradiction |].
  destruct (String.eqb_spec dir "."); [contradiction |].
  reflexivity.
Qed.

(** One round of the loop on a readable node. *)
Lemma scopeLoop_cons_readable dir node rest input saved :
  readable node ->
  scopeLoop dir (node :: rest) input saved =
  if inScope dir node
  then scopeLoop dir rest (input ++ [node]) saved
  else scopeLoop dir rest input (saved ++ [node]).
Proof.
  intros Hr. destruct (GetMeta_readable _ Hr) as (m & Hm & HG).
  unfold inScope, originPath. simpl. rewrite HG.
  destruct (Annotations m !! kioutil.PathAnnotation) as [p |]; [| reflexivity].
  unfold scopedDir, rewriteForReservedDir.
  destruct (strings.HasPrefix _ dir); reflexivity.
Qed.

(** The loop on readable nodes: both slices grow by a filter of the nodes. *)
Lemma scopeLoop_readable dir nodes : forall input saved,
  Forall readable nodes ->
  scopeLoop dir nodes input saved =
  (input ++ filter (fun n => inScope dir n) nodes,
   saved ++ filter (fun n => ~ inScope dir n) nodes, None).
Proof.
  induction nodes as [| node rest IH]; intros input saved Hall.
  - simpl. rewrite !app_nil_r. reflexivity.
  - inversion Hall as [| ? ? Hr Hrest]; subst.
    rewrite scopeLoop_cons_readable by assumption.
    destruct (inScope dir node) eqn:Hin.
    + rewrite IH by assumption.
      rewrite filter_cons_True by (rewrite Hin; exact I).
      rewrite filter_cons_False by (rewrite Hin; simpl; tauto).
      rewrite <- app_assoc. reflexivity.
    + rewrite IH by assumption.
      rewrite filter_cons_False by (rewrite Hin; simpl; tauto).
      rewrite filter_cons_True by (rewrite Hin; simpl; tauto).
      rewrite <- app_assoc. reflexivity.
Qed.

(** The loop stops at the first node whose metadata cannot be read, with
    the error of that lookup and no slice. *)
Lemma scopeLoop_unreadable dir nodes : forall input saved,
  ~ Forall readable nodes ->
  exists node err,
    node ∈ nodes /\ (GetMeta node).2 = Some err
    /\ scopeLoop dir nodes input saved = ([], [], Some err).
Proof.
  induction nodes as [| node rest IH]; intros input saved Hnot.
  - destruct Hnot. constructor.
  - destruct (decide (readable node)) as [Hr | Hr].
    + rewrite scopeLoop_cons_readable by assumption.
      assert (Hrest : ~ Forall readable rest).
      { intros H. apply Hnot. constructor; assumption. }
      destruct (inScope dir node);
        [ destruct (IH (input ++ [node]) saved Hrest) as (n & err & Hin & HG & Heq)
        | destruct (IH input (saved ++ [node]) Hrest) as (n & err & Hin & HG & Heq) ];
        exists n, err; rewrite Heq; repeat split; try assumption;
        apply list_elem_of_further; assumption.
    + destruct (GetMeta_unreadable _ Hr) as (err & HG).
      exists node, err. simpl. rewrite HG. repeat split.
      apply list_elem_of_here.
Qed.

(** A partition without error has read every node. *)
Lemma scopeLoop_ok_readable dir nodes input saved input' saved' :
  scopeLoop dir nodes input saved = (input', saved', None) ->
  Forall readable nodes.
Proof.
  intros H. destruct (decide (Forall readable nodes)) as [Hall | Hnot]; [assumption |].
  destruct (scopeLoop_unreadable dir nodes input saved Hnot) as (n & err & _ & _ & He).
  rewrite He in H. discriminate.
Qed.

Lemma scope_ok c dir nodes input saved :
  scoped c dir ->
  scope c dir nodes = (input, saved, None) ->
  Forall readable nodes
  /\ input = filter (fun n => inScope dir n) nodes
  /\ saved = filter (fun n => ~ inScope dir n) nodes.
Proof.
  intros Hs H. rewrite scope_scoped in H by assumption.
  pose proof (scopeLoop_ok_readable _ _ _ _ _ _ H) as Hall.
  rewrite scopeLoop_readable in H by assumption.
  simpl in H. inversion H. auto.
Qed.

Lemma scope_global c dir nodes :
  GlobalScope c = true \/ dir = "" \/ dir = "." ->
  scope c dir nodes = (nodes, [], None).
Proof.
  unfold scope. intros [Hg | [He | Hd]].
  - rewrite Hg. reflexivity.
  - subst dir. destruct (GlobalScope c); reflexivity.
  - subst dir. destruct (GlobalScope c); reflexivity.
Qed.

(** With or without a scope directory, [scope] either fails and returns no
    slice, or returns all nodes in two slices. *)
Lemma scope_cases c dir nodes :
  (exists err, scope c dir nodes = ([], [], Some err))
  \/ (exists input saved, scope c dir nodes = (input, saved, None)).
Proof.
  unfold scope. destruct (GlobalScope c); [right; eauto |].
  destruct (String.eqb dir "" || String.eqb dir "."); [right; eauto |].
  destruct (decide (Forall readable nodes)) as [Hall | Hnot].
  - right. rewrite scopeLoop_readable by assumption. eauto.
  - left. destruct (scopeLoop_unreadable dir nodes [] [] Hnot) as (n & err & _ & _ & He).
    eauto.
Qed.

(** ** The stages of Filter *)

(** [getCommand] assigns [args] and the style of the configuration, nothing
    scoping looks at. *)
Lemma getCommand_frame w c :
  meta (Config (getCommand w c).1) = meta (Config c)
  /\ GlobalScope (getCommand w c).1 = GlobalScope c
  /\ DeferFailure (getCommand w c).1 = DeferFailure c.
Proof.
  unfold getCommand.
  destruct (SetFlowStyleForConfig c); simpl;
    match goal with |- context [(length ?a =? 0)%nat] => destruct (length a =? 0)%nat end;
    simpl; auto.
Qed.

Lemma getFunctionScope_meta c c' :
  meta (Config c') = meta (Config c) -> getFunctionScope c' = getFunctionScope c.
Proof. intros H. unfold getFunctionScope, GetMeta. rewrite H. reflexivity. Qed.

Lemma scope_flag c c' dir nodes :
  GlobalScope c' = GlobalScope c -> scope c' dir nodes = scope c dir nodes.
Proof. intros H. unfold scope. rewrite H. reflexivity. Qed.

Lemma doResults_frame w c results c' err :
  doResults w c results = (c', err) ->
  Exit c' = Exit c /\ DeferFailure c' = DeferFailure c.
Proof.
  unfold doResults. intros H.
  destruct results as [r |].
  - destruct (negb (String.eqb (ResultsFile c) "")).
    + destruct (RNode_String w r) as [text [e |]].
      * inversion H; subst; auto.
      * destruct (ioutil_WriteFile w (ResultsFile c) text); inversion H; subst; auto.
    + inversion H; subst; auto.
  - inversion H; subst; auto.
Qed.

Lemma Invoked_frame w c nodes functionDir input saved output exit c' :
  Invoked w c nodes functionDir input saved output exit c' ->
  Exit c' = exit /\ DeferFailure c' = DeferFailure c.
Proof.
  intros [_ _ (in_ & out & results & _ & _ & _ & Hres)].
  apply doResults_frame in Hres. destruct Hres as [He Hd].
  destruct (getCommand_frame w c) as (_ & _ & Hdf).
  simpl in He, Hd. rewrite He, Hd. auto.
Qed.

(** What Filter returns once the exit status is known. *)
Lemma Filter_invoked w c nodes functionDir input saved output exit c' :
  Invoked w c nodes functionDir input saved output exit c' ->
  Filter w c nodes =
  if bool_decide (exit <> None) && negb (DeferFailure c)
  then (c', (output ++ saved, exit))
  else match DefaultPathAnnotation w functionDir output with
       | (output', None) => (c', (output' ++ saved, None))
       | (_, Some err) => (c', ([], Some err))
       end.
Proof.
  intros Hinv.
  destruct (Invoked_frame _ _ _ _ _ _ _ _ _ Hinv) as [Hexit Hdefer].
  destruct Hinv as [Hdir Hscope (in_ & out & results & Hw & Hrun & Hread & Hres)].
  destruct (getCommand_frame w c) as (Hmeta & Hglobal & _).
  unfold Filter.
  destruct (getCommand w c) as [c1 cmd]. simpl in *.
  rewrite (getFunctionScope_meta c c1 Hmeta), Hdir.
  rewrite (scope_flag c c1 _ _ Hglobal), Hscope.
  rewrite Hw, Hrun, Hread, Hres, Hexit, Hdefer.
  destruct (bool_decide (exit <> None) && negb (DeferFailure c)); [reflexivity |].
  destruct (DefaultPathAnnotation w functionDir output) as [output' [err |]]; reflexivity.
Qed.

(** Filter either stops at an error of a stage before the check of the
    exit status, with no Resources, or reaches the check. *)
Lemma Filter_aborts_or_invoked w c nodes :
  (exists err, (Filter w c nodes).2 = ([], Some err))
  \/ (exists functionDir input saved output exit c',
        Invoked w c nodes functionDir input saved output exit c').
Proof.
  destruct (getCommand_frame w c) as (Hmeta & Hglobal & _).
  pose proof (getFunctionScope_meta c (getCommand w c).1 Hmeta) as Hsame.
  pose proof (fun dir => scope_flag c (getCommand w c).1 dir nodes Hglobal) as Hflag.
  destruct (getFunctionScope c) as [functionDir [e |]] eqn:Hdir.
  { left. exists e. unfold Filter.
    destruct (getCommand w c) as [c1 cmd]. simpl in *. rewrite Hsame. reflexivity. }
  destruct (scope c functionDir nodes) as [[input saved] [e |]] eqn:Hscope.
  { left. exists e. unfold Filter.
    destruct (getCommand w c) as [c1 cmd]. simpl in *. rewrite Hsame, Hflag, Hscope.
    reflexivity. }
  destruct (ByteWriter_Write w (Config (getCommand w c).1) input) as [in_ [e |]] eqn:Hw.
  { left. exists e. unfold Filter.
    destruct (getCommand w c) as [c1 cmd]. simpl in *. rewrite Hsame, Hflag, Hscope, Hw.
    reflexivity. }
  destruct (cmd_Run w (cmd_args (getCommand w c).2) (cmd_Env (getCommand w c).2) in_)
    as [out exit] eqn:Hrun.
  destruct (ByteReader_Read w out) as [[output results] [e |]] eqn:Hread.
  { left. exists e. unfold Filter.
    destruct (getCommand w c) as [c1 cmd]. simpl in *.
    rewrite Hsame, Hflag, Hscope, Hw, Hrun, Hread. reflexivity. }
  destruct (doResults w (withExit exit (getCommand w c).1) results) as [c' [e |]] eqn:Hres.
  { left. exists e. unfold Filter.
    destruct (getCommand w c) as [c1 cmd]. simpl in *.
    rewrite Hsame, Hflag, Hscope, Hw, Hrun, Hread, Hres. reflexivity. }
  right. exists functionDir, input, saved, output, exit, c'.
  constructor; [assumption | assumption |].
  exists in_, out, results. auto.
Qed.

(** ** Facts on provenance defaulting *)

Lemma SetAnnotation_defaults node m p i :
  GetMeta node = (m, None) ->
  let node' := SetAnnotation kioutil.IndexAnnotation i
                 (SetAnnotation kioutil.PathAnnotation p node) in
  originPath node' = Some p /\ indexAnnotation node' = Some i.
Proof.
  unfold GetMeta. destruct (meta node) as [e | m0] eqn:Hm; intros H; [discriminate |].
  inversion H; subst m0.
  unfold originPath, indexAnnotation, SetAnnotation, GetMeta.
  rewrite Hm. simpl. split.
  - rewrite lookup_insert_ne by discriminate. apply lookup_insert_eq.
  - apply lookup_insert_eq.
Qed.

Lemma defaultLoop_ok w dir nodes : forall counts nodes',
  defaultLoop w dir counts nodes = (nodes', None) ->
  Forall2 (defaulted w dir) nodes nodes'.
Proof.
  induction nodes as [| node rest IH]; intros counts nodes' H; simpl in H.
  - inversion H. constructor.
  - destruct (GetMeta node) as [m [e |]] eqn:HG; [discriminate |].
    destruct (Annotations m !! kioutil.PathAnnotation) as [p |] eqn:Hp.
    + destruct (defaultLoop w dir counts rest) as [rest' e] eqn:Hrest.
      inversion H; subst. constructor.
      * unfold defaulted, originPath. rewrite HG, Hp. reflexivity.
      * apply (IH counts). assumption.
    + destruct (defaultLoop w dir _ rest) as [rest' e] eqn:Hrest.
      inversion H; subst. constructor.
      * unfold defaulted. unfold originPath at 1. rewrite HG, Hp.
        exists m, (default O (counts !! defaultPath w dir m)).
        split; [reflexivity |].
        apply (SetAnnotation_defaults node m). assumption.
      * eapply IH. eassumption.
Qed.

Lemma DefaultPathAnnotation_ok w dir nodes nodes' :
  DefaultPathAnnotation w dir nodes = (nodes', None) ->
  Forall2 (defaulted w dir) nodes nodes'.
Proof.
  unfold DefaultPathAnnotation.
  destruct (defaultLoop w dir ∅ nodes) as [l [e |]] eqn:H; intros Heq; [discriminate |].
  inversion Heq; subst. eapply defaultLoop_ok. eassumption.
Qed.

Lemma DefaultPathAnnotation_err w dir nodes nodes' err :
  DefaultPathAnnotation w dir nodes = (nodes', Some err) -> nodes' = [].
Proof.
  unfold DefaultPathAnnotation.
  destruct (defaultLoop w dir ∅ nodes) as [l [e |]]; intros Heq; inversion Heq; reflexivity.
Qed.

(** ** The claims on the partition *)

(** What lies under [dir] passes the test of the code. *)
Lemma underDir_HasPrefix dir d :
  underDir dir d = true -> strings.HasPrefix d dir = true.
Proof.
  unfold underDir, strings.HasPrefix. intros H.
  apply orb_true_iff in H. destruct H as [H | H].
  - apply String.eqb_eq in H. subst d. apply prefix_refl.
  - eapply prefix_app_l. eassumption.
Qed.

(** A Resource under the scope directory is in scope. *)
Lemma scope_under_in_scope c dir node p :
  scoped c dir ->
  originPath node = Some p ->
  underDir dir (scopedDir p) = true ->
  scope c dir [node] = ([node], [], None).
Proof.
  intros Hs Hp Hu. rewrite scope_scoped by assumption.
  assert (Hr : readable node).
  { unfold readable. unfold originPath in Hp.
    destruct (GetMeta node) as [m [e |]]; [discriminate | reflexivity]. }
  rewrite scopeLoop_cons_readable by assumption.
  unfold inScope. rewrite Hp, (underDir_HasPrefix _ _ Hu). reflexivity.
Qed.

(** C1, where the code departs from it: the function read from
    [apps/fn.yaml] has the scope directory [apps]; the Resource read from
    [apps2/deployment.yaml] has the directory [apps2], which is neither
    [apps] nor below it, and [scope] returns it in the first slice, the
    Resources in scope, because [apps] is a prefix of the string [apps2]. *)
Theorem scope_sibling_prefix_in_scope :
  let c := filterAt "apps/fn.yaml" "example.com/fn" false false in
  let node := resourceAt "apps2/deployment.yaml" "Deployment" "foo" in
  getFunctionScope c = ("apps", None)
  /\ scopedDir "apps2/deployment.yaml" = "apps2"
  /\ underDir "apps" "apps2" = false
  /\ scope c "apps" [node] = ([node], [], None).
Proof. repeat split; vm_compute; reflexivity. Qed.

(** C2: when [scope] partitions by a scope directory (GlobalScope unset,
    the directory neither empty nor [.]), every node without origin-path
    annotation is in the second slice, the Resources out of scope, and not
    in the first. *)
Theorem scope_unannotated_out_of_scope c dir nodes input saved :
  scoped c dir ->
  scope c dir nodes = (input, saved, None) ->
  forall node, node ∈ nodes -> originPath node = None ->
    node ∈ saved /\ node ∉ input.
Proof.
  intros Hs Hscope node Hin Hnone.
  destruct (scope_ok _ _ _ _ _ Hs Hscope) as (_ & -> & ->).
  assert (Hout : inScope dir node = false).
  { unfold inScope. rewrite Hnone. reflexivity. }
  split.
  - apply list_elem_of_filter. split; [| assumption].
    rewrite Hout. simpl. tauto.
  - intros H. apply list_elem_of_filter in H. destruct H as [H _].
    rewrite Hout in H. exact H.
Qed.

Lemma scope_unannotated_out_of_scope_witness :
  let c := filterAt "apps/fn.yaml" "example.com/fn" false false in
  let a := resourceAt "apps/deployment.yaml" "Deployment" "foo" in
  let b := resourceNoPath "Service" "bar" in
  scoped c "apps"
  /\ scope c "apps" [a; b] = ([a], [b], None)
  /\ b ∈ [b] /\ b ∉ [a].
Proof.
  intros c a b.
  assert (Hs : scoped c "apps") by (repeat split; discriminate).
  assert (Hscope : scope c "apps" [a; b] = ([a], [b], None)) by (vm_compute; reflexivity).
  split; [exact Hs |]. split; [exact Hscope |].
  apply (scope_unannotated_out_of_scope c "apps" [a; b] [a] [b] Hs Hscope b).
  - apply list_elem_of_In. simpl. tauto.
  - vm_compute. reflexivity.
Defined.

(** C3: with GlobalScope set, or with the scope directory empty or [.],
    [scope] returns all nodes as the Resources in scope, none out of scope
    and no error, whatever the nodes are. *)
Theorem scope_global_all_in_scope c dir nodes :
  GlobalScope c = true \/ dir = "" \/ dir = "." ->
  scope c dir nodes = (nodes, [], None).
Proof. apply scope_global. Qed.

Lemma scope_global_all_in_scope_witness :
  let c := filterAt "apps/fn.yaml" "example.com/fn" true false in
  let nodes := [resourceAt "other/c.yaml" "ConfigMap" "c"; resourceNoPath "Service" "bar";
                unreadable "metadata: 5"] in
  scope c "apps" nodes = (nodes, [], None).
Proof.
  intros c nodes.
  apply (scope_global_all_in_scope c "apps" nodes).
  left. reflexivity.
Defined.

(** ** The claims on scope resolution and on errors *)

Lemma originPath_readable node p : originPath node = Some p -> readable node.
Proof.
  unfold originPath, readable.
  destruct (GetMeta node) as [m [e |]]; [discriminate | reflexivity].
Qed.

(** Filter returns the error of scope resolution and no Resources. *)
Lemma Filter_scope_resolution_error w c nodes err :
  getFunctionScope c = ("", Some err) -> (Filter w c nodes).2 = ([], Some err).
Proof.
  intros H. destruct (getCommand_frame w c) as (Hmeta & _ & _).
  unfold Filter. destruct (getCommand w c) as [c1 cmd]. simpl in *.
  rewrite (getFunctionScope_meta c c1 Hmeta), H. reflexivity.
Qed.

(** Filter returns the error of the partition and no Resources. *)
Lemma Filter_partition_error w c nodes dir err :
  getFunctionScope c = (dir, None) ->
  scope c dir nodes = ([], [], Some err) ->
  (Filter w c nodes).2 = ([], Some err).
Proof.
  intros Hdir H. destruct (getCommand_frame w c) as (Hmeta & Hglobal & _).
  unfold Filter. destruct (getCommand w c) as [c1 cmd]. simpl in *.
  rewrite (getFunctionScope_meta c c1 Hmeta), Hdir.
  rewrite (scope_flag c c1 _ _ Hglobal), H. reflexivity.
Qed.

(** C8: when the metadata of a node cannot be read while [scope]
    partitions by a directory, [scope] returns the error of that lookup
    and neither slice, and so does Filter; when the metadata of the
    function configuration cannot be read, scope resolution returns the
    wrapped error, and Filter returns it with no Resources. *)
Theorem metadata_error_aborts w c dir nodes :
  (scoped c dir -> ~ Forall readable nodes ->
   exists node err,
     node ∈ nodes /\ (GetMeta node).2 = Some err
     /\ scope c dir nodes = ([], [], Some err)
     /\ (getFunctionScope c = (dir, None) -> (Filter w c nodes).2 = ([], Some err)))
  /\ (forall err, (GetMeta (Config c)).2 = Some err ->
        getFunctionScope c = ("", Some (errors.Wrap err))
        /\ (Filter w c nodes).2 = ([], Some (errors.Wrap err))).
Proof.
  split.
  - intros Hs Hnot.
    destruct (scopeLoop_unreadable dir nodes [] [] Hnot) as (node & err & Hin & HG & Heq).
    exists node, err. rewrite scope_scoped by assumption.
    repeat split; try assumption.
    intros Hdir. eapply Filter_partition_error; [eassumption |].
    rewrite scope_scoped by assumption. assumption.
  - intros err HG.
    assert (Hscope : getFunctionScope c = ("", Some (errors.Wrap err))).
    { unfold getFunctionScope. destruct (GetMeta (Config c)) as [m e].
      simpl in HG. subst e. reflexivity. }
    split; [assumption |].
    apply Filter_scope_resolution_error. assumption.
Qed.

Lemma metadata_error_aborts_witness :
  let w := cannedWorld [] None in
  let c := filterAt "apps/fn.yaml" "example.com/fn" false false in
  let nodes := [resourceAt "apps/a.yaml" "ConfigMap" "a"; unreadable "metadata: 5"] in
  let c0 := withConfig (unreadable "metadata: 5") c in
  (exists node err,
     node ∈ nodes /\ (GetMeta node).2 = Some err
     /\ scope c "apps" nodes = ([], [], Some err)
     /\ (getFunctionScope c = ("apps", None) -> (Filter w c nodes).2 = ([], Some err)))
  /\ getFunctionScope c0 = ("", Some (Wrapped (ErrorString "cannot unmarshal metadata"))).
Proof.
  intros w c nodes c0. split.
  - apply (metadata_error_aborts w c "apps" nodes).
    + repeat split; discriminate.
    + intros H. inversion H as [| ? ? _ H2]; subst.
      inversion H2 as [| ? ? H3 _]; subst. discriminate H3.
  - apply (metadata_error_aborts w c0 "apps" nodes). reflexivity.
Defined.

(** C9: StringToStorageMount panics, with an index out of range, on every
    string one of whose comma-separated options has no [=]; the empty
    string is one. *)
Theorem StringToStorageMount_panics s option :
  In option (strings.Split s ",") ->
  ~ In "="%char (bytes option) ->
  StringToStorageMount s = Panics (IndexOutOfRange 1 1).
Proof.
  intros Hin Hno. unfold StringToStorageMount.
  rewrite (readOptions_panics _ ∅ option Hin); [reflexivity |].
  apply Index_absent. assumption.
Qed.

Lemma StringToStorageMount_panics_witness :
  StringToStorageMount "" = Panics (IndexOutOfRange 1 1).
Proof.
  apply (StringToStorageMount_panics "" "").
  - simpl. left. reflexivity.
  - simpl. tauto.
Defined.

(** ** The claims on Filter *)

Lemma filter_none (nodes : list RNode) :
  filter (fun _ : RNode => ~ Is_true true) nodes = [].
Proof.
  induction nodes as [| n rest IH]; [reflexivity |].
  rewrite filter_cons_False by (simpl; tauto). assumption.
Qed.

Lemma filter_all (nodes : list RNode) :
  filter (fun _ : RNode => Is_true true) nodes = nodes.
Proof.
  induction nodes as [| n rest IH]; [reflexivity |].
  rewrite filter_cons_True by exact I. rewrite IH. reflexivity.
Qed.

(** A partition without error sorts the nodes by a test on each node. *)
Lemma scope_partition c dir nodes input saved :
  scope c dir nodes = (input, saved, None) ->
  exists test : RNode -> bool,
    input = filter (fun n => test n) nodes
    /\ saved = filter (fun n => ~ test n) nodes.
Proof.
  intros H.
  destruct (GlobalScope c) eqn:Hg;
    [| destruct (String.eqb_spec dir "") as [He | He];
       [| destruct (String.eqb_spec dir ".") as [Hd | Hd]]].
  1-3: rewrite scope_global in H by auto; inversion H; subst;
       exists (fun _ => true); rewrite filter_none, filter_all; auto.
  assert (Hs : scoped c dir) by (repeat split; assumption).
  destruct (scope_ok _ _ _ _ _ Hs H) as (_ & Hi & Hsv).
  exists (inScope dir). auto.
Qed.

Lemma sample_invoked defer :
  Invoked sampleWorld (sampleFilter defer) sampleNodes "dir"
    [resourceAt "dir/a.yaml" "ConfigMap" "a"; resourceAt "dir/sub/b.yaml" "ConfigMap" "b"]
    [resourceAt "other/c.yaml" "ConfigMap" "c"]
    sampleOutput (Some (ExitError 1))
    (withExit (Some (ExitError 1)) (getCommand sampleWorld (sampleFilter defer)).1).
Proof.
  destruct defer; constructor; try (vm_compute; reflexivity);
    exists "ResourceList", "ResourceList", None; repeat split.
Qed.

(** C5: a partition without error sorts every node into exactly one of
    the two slices by a test on the node, each slice in the order of the
    input; and the Resources Filter returns are the output of the function
    (as emitted, or with the default provenance) followed by the slice out
    of scope, unless provenance defaulting fails and nothing is returned. *)
Theorem partition_strict_and_appended w c nodes functionDir input saved output exit c' :
  Invoked w c nodes functionDir input saved output exit c' ->
  (exists test : RNode -> bool,
     input = filter (fun n => test n) nodes
     /\ saved = filter (fun n => ~ test n) nodes)
  /\ input ++ saved ≡ₚ nodes
  /\ input `sublist_of` nodes
  /\ saved `sublist_of` nodes
  /\ ((exists err, DefaultPathAnnotation w functionDir output = ([], Some err)
                   /\ (Filter w c nodes).2 = ([], Some err))
      \/ (exists output',
            (output' = output \/ DefaultPathAnnotation w functionDir output = (output', None))
            /\ (Filter w c nodes).2.1 = output' ++ saved)).
Proof.
  intros Hinv.
  destruct (scope_partition _ _ _ _ _ (inv_scope _ _ _ _ _ _ _ _ _ Hinv))
    as (test & Hi & Hs).
  split; [exists test; auto |].
  split; [subst; apply filter_app_complement |].
  split; [subst; apply sublist_filter; apply _ |].
  split; [subst; apply sublist_filter; apply _ |].
  rewrite (Filter_invoked _ _ _ _ _ _ _ _ _ Hinv).
  destruct (bool_decide (exit <> None) && negb (DeferFailure c)).
  - right. exists output. simpl. auto.
  - destruct (DefaultPathAnnotation w functionDir output) as [output' [err |]] eqn:Hd.
    + left. exists err. rewrite (DefaultPathAnnotation_err _ _ _ _ _ Hd) in *. auto.
    + right. exists output'. simpl. auto.
Qed.

Lemma partition_strict_and_appended_witness :
  let a := resourceAt "dir/a.yaml" "ConfigMap" "a" in
  let b := resourceAt "dir/sub/b.yaml" "ConfigMap" "b" in
  let c := resourceAt "other/c.yaml" "ConfigMap" "c" in
  [a; b] ++ [c] ≡ₚ sampleNodes
  /\ [a; b] `sublist_of` sampleNodes
  /\ [c] `sublist_of` sampleNodes
  /\ exists n, (Filter sampleWorld (sampleFilter true) sampleNodes).2.1 = [a; n; c].
Proof.
  intros a b c.
  destruct (partition_strict_and_appended _ _ _ _ _ _ _ _ _ (sample_invoked true))
    as (_ & Hperm & Hin & Hout & _).
  repeat split; try assumption.
  eexists. vm_compute. reflexivity.
Defined.

(** When Filter returns no error, the command succeeded or its failure is
    deferred, and provenance defaulting went through. *)
Lemma Filter_no_error w c nodes functionDir input saved output exit c' :
  Invoked w c nodes functionDir input saved output exit c' ->
  (Filter w c nodes).2.2 = None ->
  exists output',
    DefaultPathAnnotation w functionDir output = (output', None)
    /\ Filter w c nodes = (c', (output' ++ saved, None)).
Proof.
  intros Hinv. rewrite (Filter_invoked _ _ _ _ _ _ _ _ _ Hinv).
  destruct (bool_decide (exit <> None) && negb (DeferFailure c)) eqn:Hb.
  - simpl. intros ->. apply andb_true_iff in Hb. destruct Hb as [Hb _].
    apply bool_decide_eq_true in Hb. contradiction.
  - destruct (DefaultPathAnnotation w functionDir output) as [output' [err |]];
      simpl; intros H; [discriminate |].
    exists output'. auto.
Qed.

(** C6: when Filter returns without error, a Resource of the output of
    the function that has an origin-path annotation is returned as it was
    emitted, at its place; a Resource without one is returned with the
    default path as origin-path annotation and with an index annotation. *)
Theorem defaulting_keeps_origin_path w c nodes functionDir input saved output exit c' :
  Invoked w c nodes functionDir input saved output exit c' ->
  (Filter w c nodes).2.2 = None ->
  forall i node, output !! i = Some node ->
    match originPath node with
    | Some _ => (Filter w c nodes).2.1 !! i = Some node
    | None =>
        exists node' m (k : nat),
          (Filter w c nodes).2.1 !! i = Some node'
          /\ GetMeta node = (m, None)
          /\ originPath node' = Some (defaultPath w functionDir m)
          /\ indexAnnotation node' = Some (pretty k)
    end.
Proof.
  intros Hinv Hok i node Hi.
  destruct (Filter_no_error _ _ _ _ _ _ _ _ _ Hinv Hok) as (output' & Hd & ->).
  simpl. apply DefaultPathAnnotation_ok in Hd.
  destruct (Forall2_lookup_l _ _ _ _ _ Hd Hi) as (node' & Hi' & Hdef).
  rewrite (lookup_app_l_Some _ _ _ _ Hi').
  unfold defaulted in Hdef.
  destruct (originPath node) as [p |].
  - subst node'. reflexivity.
  - destruct Hdef as (m & k & HG & Hp & Hk). exists node', m, k. auto.
Qed.

Lemma defaulting_keeps_origin_path_witness :
  let res := (Filter sampleWorld (sampleFilter true) sampleNodes).2.1 in
  res !! 0%nat = Some (resourceAt "dir/a.yaml" "ConfigMap" "a")
  /\ exists node' m (k : nat),
       res !! 1%nat = Some node'
       /\ GetMeta (resourceNoPath "Foo" "bar") = (m, None)
       /\ originPath node' = Some (defaultPath sampleWorld "dir" m)
       /\ indexAnnotation node' = Some (pretty k).
Proof.
  assert (Hok : (Filter sampleWorld (sampleFilter true) sampleNodes).2.2 = None)
    by (vm_compute; reflexivity).
  pose proof (defaulting_keeps_origin_path _ _ _ _ _ _ _ _ _ (sample_invoked true) Hok)
    as H.
  split.
  - exact (H 0%nat (resourceAt "dir/a.yaml" "ConfigMap" "a") eq_refl).
  - exact (H 1%nat (resourceNoPath "Foo" "bar") eq_refl).
Defined.

(** C7 as it is stated fails on two calls with DeferFailure set and a
    command that exits with an error: when the results cannot be written,
    Filter returns the error of the write and no Resources; and when a
    Resource of the output has no origin-path annotation, Filter returns it
    with its provenance defaulted, another list than the decoded output
    followed by the Resources out of scope. *)
Lemma exit_status_claim_fails :
  (DeferFailure (resultsFilter true) = true
   /\ (Filter fullDiskWorld (resultsFilter true) sampleNodes).2
      = ([], Some (ErrorString "no space left on device"))
   /\ ~ exitStatusClaim fullDiskWorld (resultsFilter true) sampleNodes)
  /\ (DeferFailure (sampleFilter true) = true
      /\ (Filter sampleWorld (sampleFilter true) sampleNodes).2.2 = None
      /\ originPath <$> sampleOutput !! 1%nat = Some None
      /\ originPath <$> (Filter sampleWorld (sampleFilter true) sampleNodes).2.1 !! 1%nat
         = Some (Some "dir/Foo_bar.yaml")
      /\ ~ exitStatusClaim sampleWorld (sampleFilter true) sampleNodes).
Proof.
  split.
  - split; [reflexivity |]. split; [vm_compute; reflexivity |].
    intros Hclaim.
    destruct (Hclaim "dir"
                [resourceAt "dir/a.yaml" "ConfigMap" "a";
                 resourceAt "dir/sub/b.yaml" "ConfigMap" "b"]
                [resourceAt "other/c.yaml" "ConfigMap" "c"]
                "ResourceList" "ResourceList" (ExitError 1) []
                (Some (resourceNoPath "Results" "results")))
      as [_ Hdefer]; try (vm_compute; reflexivity).
    destruct (Hdefer eq_refl) as [Hres _].
    apply (f_equal snd) in Hres. vm_compute in Hres. discriminate Hres.
  - split; [reflexivity |]. do 3 (split; [vm_compute; reflexivity |]).
    intros Hclaim.
    destruct (Hclaim "dir"
                [resourceAt "dir/a.yaml" "ConfigMap" "a";
                 resourceAt "dir/sub/b.yaml" "ConfigMap" "b"]
                [resourceAt "other/c.yaml" "ConfigMap" "c"]
                "ResourceList" "ResourceList" (ExitError 1) sampleOutput None)
      as [_ Hdefer]; try (vm_compute; reflexivity).
    destruct (Hdefer eq_refl) as [Hres _].
    apply (f_equal (fun r => originPath <$> r.1 !! 1%nat)) in Hres.
    vm_compute in Hres. discriminate Hres.
Qed.

(** C7, amended: when the command exits with an error and its output is
    decoded, GetExit of the filter returns that error. If the results
    cannot be kept, Filter returns the error of that and no Resources.
    Otherwise Filter with DeferFailure unset returns the decoded output
    followed by the Resources out of scope, and the error of the command;
    with DeferFailure set it returns no error and the output with its
    provenance defaulted followed by the Resources out of scope, or, when
    provenance defaulting fails, its error and no Resources. *)
Theorem exit_error_returned_or_deferred (w : World) (c : ContainerFilter)
  (nodes : list RNode) (functionDir : string) (input saved : list RNode)
  (in_ out : string) (err : Error) (output : list RNode) (results : option RNode) :
  getFunctionScope c = (functionDir, None) ->
  scope c functionDir nodes = (input, saved, None) ->
  ByteWriter_Write w (Config (getCommand w c).1) input = (in_, None) ->
  cmd_Run w (cmd_args (getCommand w c).2) (cmd_Env (getCommand w c).2) in_
    = (out, Some err) ->
  ByteReader_Read w out = (output, results, None) ->
  GetExit (Filter w c nodes).1 = Some err
  /\ match doResults w (withExit (Some err) (getCommand w c).1) results with
     | (_, Some e) => (Filter w c nodes).2 = ([], Some e)
     | (_, None) =>
         if DeferFailure c then
           match DefaultPathAnnotation w functionDir output with
           | (output', None) =>
               (Filter w c nodes).2 = (output' ++ saved, None)
               /\ Forall2 (defaulted w functionDir) output output'
           | (_, Some e) => (Filter w c nodes).2 = ([], Some e)
           end
         else (Filter w c nodes).2 = (output ++ saved, Some err)
     end.
Proof.
  intros Hdir Hscope Hw Hrun Hread.
  destruct (getCommand_frame w c) as (Hmeta & Hglobal & Hdf).
  pose proof (getFunctionScope_meta c (getCommand w c).1 Hmeta) as Hsame.
  pose proof (scope_flag c (getCommand w c).1 functionDir nodes Hglobal) as Hflag.
  unfold GetExit, Filter.
  destruct (getCommand w c) as [c1 cmd]. cbn [fst snd] in *.
  rewrite Hsame, Hdir, Hflag, Hscope, Hw, Hrun, Hread.
  destruct (doResults w (withExit (Some err) c1) results) as [c2 e] eqn:Hres.
  destruct (doResults_frame _ _ _ _ _ Hres) as [He Hd].
  cbn [withExit Exit DeferFailure] in He, Hd.
  destruct e as [e |]; [cbn [fst snd]; auto |].
  rewrite He, Hd, Hdf. rewrite bool_decide_eq_true_2 by discriminate.
  destruct (DeferFailure c); cbn [andb negb].
  - destruct (DefaultPathAnnotation w functionDir output) as [output' [e |]] eqn:Hdef;
      cbn [fst snd].
    + auto.
    + split; [assumption |]. split; [reflexivity |].
      apply DefaultPathAnnotation_ok. assumption.
  - cbn [fst snd]. auto.
Qed.

Lemma exit_error_returned_or_deferred_witness :
  let a := resourceAt "dir/a.yaml" "ConfigMap" "a" in
  let b := resourceAt "dir/sub/b.yaml" "ConfigMap" "b" in
  let c := resourceAt "other/c.yaml" "ConfigMap" "c" in
  (GetExit (Filter sampleWorld (sampleFilter false) sampleNodes).1 = Some (ExitError 1)
   /\ (Filter sampleWorld (sampleFilter false) sampleNodes).2
      = ([a; resourceNoPath "Foo" "bar"; c], Some (ExitError 1)))
  /\ (GetExit (Filter sampleWorld (sampleFilter true) sampleNodes).1 = Some (ExitError 1)
      /\ (Filter sampleWorld (sampleFilter true) sampleNodes).2.2 = None)
  /\ (GetExit (Filter fullDiskWorld (resultsFilter true) sampleNodes).1 = Some (ExitError 1)
      /\ (Filter fullDiskWorld (resultsFilter true) sampleNodes).2
         = ([], Some (ErrorString "no space left on device"))).
Proof.
  intros a b c.
  pose proof (exit_error_returned_or_deferred sampleWorld (sampleFilter false) sampleNodes
                "dir" [a; b] [c] "ResourceList" "ResourceList" (ExitError 1)
                sampleOutput None eq_refl eq_refl eq_refl eq_refl eq_refl) as Hhard.
  pose proof (exit_error_returned_or_deferred sampleWorld (sampleFilter true) sampleNodes
                "dir" [a; b] [c] "ResourceList" "ResourceList" (ExitError 1)
                sampleOutput None eq_refl eq_refl eq_refl eq_refl eq_refl) as Hdefer.
  pose proof (exit_error_returned_or_deferred fullDiskWorld (resultsFilter true) sampleNodes
                "dir" [a; b] [c] "ResourceList" "ResourceList" (ExitError 1)
                [] (Some (resourceNoPath "Results" "results"))
                eq_refl eq_refl eq_refl eq_refl eq_refl) as Hdisk.
  split; [exact Hhard |]. split; [| exact Hdisk].
  destruct Hdefer as [Hexit Hres]. split; [exact Hexit |].
  vm_compute. reflexivity.
Defined.

(** C10: when the command exits with an error and DeferFailure is unset,
    Filter returns the decoded output as it is: a Resource emitted without
    origin-path annotation is returned without one, where provenance
    defaulting would have given it the default path. *)
Theorem exit_error_skips_defaulting w c nodes functionDir input saved output err c' :
  Invoked w c nodes functionDir input saved output (Some err) c' ->
  DeferFailure c = false ->
  (Filter w c nodes).2 = (output ++ saved, Some err)
  /\ forall i node, output !! i = Some node -> originPath node = None ->
       (Filter w c nodes).2.1 !! i = Some node
       /\ forall output', DefaultPathAnnotation w functionDir output = (output', None) ->
            exists node', output' !! i = Some node' /\ originPath node' <> None.
Proof.
  intros Hinv Hdefer.
  rewrite (Filter_invoked _ _ _ _ _ _ _ _ _ Hinv), Hdefer.
  rewrite bool_decide_eq_true_2 by discriminate. simpl.
  split; [reflexivity |].
  intros i node Hi Hnone. split.
  - apply lookup_app_l_Some. assumption.
  - intros output' Hd. apply DefaultPathAnnotation_ok in Hd.
    destruct (Forall2_lookup_l _ _ _ _ _ Hd Hi) as (node' & Hi' & Hdef).
    exists node'. split; [assumption |].
    unfold defaulted in Hdef. rewrite Hnone in Hdef.
    destruct Hdef as (m & k & _ & Hp & _). rewrite Hp. discriminate.
Qed.

Lemma exit_error_skips_defaulting_witness :
  (Filter sampleWorld (sampleFilter false) sampleNodes).2.1 !! 1%nat
    = Some (resourceNoPath "Foo" "bar")
  /\ originPath (resourceNoPath "Foo" "bar") = None.
Proof.
  destruct (exit_error_skips_defaulting _ _ _ _ _ _ _ _ _ (sample_invoked false) eq_refl)
    as [_ H].
  split.
  - apply (H 1%nat (resourceNoPath "Foo" "bar") eq_refl). reflexivity.
  - reflexivity.
Defined.

(** ** Package path on plain paths *)

Lemma bytes_of_bytes (l : list ascii) : bytes (of_bytes l) = l.
Proof. apply list_ascii_of_string_of_list_ascii. Qed.

Lemma of_bytes_bytes (s : string) : of_bytes (bytes s) = s.
Proof. apply string_of_list_ascii_of_string. Qed.

Lemma plain_head (e : list ascii) :
  plain e -> exists c e', e = c :: e' /\ Ascii.eqb c path.slash = false.
Proof.
  intros (Hne & Hslash & _). destruct e as [| c e']; [contradiction |].
  exists c, e'. split; [reflexivity |].
  apply Ascii.eqb_neq. intros ->. apply Hslash. left. reflexivity.
Qed.

Lemma endsElement_app (e rest : list ascii) :
  ~ In path.slash e -> path.endsElement (e ++ rest) = true ->
  e = [] \/ False.
Proof.
  intros Hslash H. destruct e as [| c e']; [left; reflexivity |].
  simpl in H. apply Ascii.eqb_eq in H. subst c.
  destruct Hslash. left. reflexivity.
Qed.

Lemma element_plain (e rest : list ascii) :
  ~ In path.slash e -> path.endsElement rest = true ->
  path.element (e ++ rest) = (e, rest).
Proof.
  intros Hslash Hrest. induction e as [| c e IH]; cbn [app path.element].
  - destruct rest as [| r rest']; [reflexivity |].
    cbn [path.endsElement path.element] in *. rewrite Hrest. reflexivity.
  - destruct (Ascii.eqb_spec c path.slash) as [-> | Hc].
    + destruct Hslash. left. reflexivity.
    + rewrite IH; [reflexivity |]. intros Hin. apply Hslash. right. assumption.
Qed.

Lemma cleanLoop_nil fuel rooted out dotdot :
  path.cleanLoop fuel rooted [] out dotdot = Some out.
Proof. destruct fuel; reflexivity. Qed.

(** One round of the loop of [Clean] copies a plain element. *)
Lemma cleanLoop_plain fuel (e rest out : list ascii) dotdot :
  plain e -> path.endsElement rest = true ->
  path.cleanLoop (S fuel) false (e ++ rest) out dotdot =
  path.cleanLoop fuel false rest
    (rev e ++ (if (length out =? 0)%nat then out else path.slash :: out)) dotdot.
Proof.
  intros Hplain Hrest.
  destruct (plain_head e Hplain) as (c & e' & -> & Hc).
  destruct Hplain as (_ & Hslash & Hdot & Hdotdot).
  assert (Hslash' : ~ In path.slash e').
  { intros Hin. apply Hslash. right. assumption. }
  change ((c :: e') ++ rest) with (c :: (e' ++ rest)).
  cbn [path.cleanLoop]. rewrite Hc.
  assert (H2 : Ascii.eqb c path.dot && path.endsElement (e' ++ rest) = false).
  { apply andb_false_iff.
    destruct (Ascii.eqb_spec c path.dot) as [-> | Hn]; [right | left; reflexivity].
    destruct (path.endsElement (e' ++ rest)) eqn:He; [| reflexivity].
    destruct (endsElement_app e' rest Hslash' He) as [-> | []].
    destruct Hdot. reflexivity. }
  rewrite H2.
  assert (H3 : Ascii.eqb c path.dot
               && match e' ++ rest with
                  | c1 :: p2 => Ascii.eqb c1 path.dot && path.endsElement p2
                  | [] => false
                  end = false).
  { apply andb_false_iff.
    destruct (Ascii.eqb_spec c path.dot) as [-> | Hn]; [right | left; reflexivity].
    destruct e' as [| c1 e''].
    - destruct Hdot. reflexivity.
    - simpl. apply andb_false_iff.
      destruct (Ascii.eqb_spec c1 path.dot) as [-> | Hn1]; [right | left; reflexivity].
      destruct (path.endsElement (e'' ++ rest)) eqn:He; [| reflexivity].
      assert (Hs'' : ~ In path.slash e'').
      { intros Hin. apply Hslash'. right. assumption. }
      destruct (endsElement_app e'' rest Hs'' He) as [-> | []].
      destruct Hdotdot. reflexivity. }
  rewrite H3.
  change (c :: e' ++ rest) with ((c :: e') ++ rest).
  rewrite (element_plain (c :: e') rest Hslash Hrest).
  simpl. destruct (length out =? 0)%nat; reflexivity.
Qed.

(** The loop on a plain path, with or without a slash at its end, writes
    the path. *)
Lemma cleanLoop_plainPath (es : list (list ascii)) : forall fuel tail out,
  Forall plain es -> es <> [] ->
  tail = [] \/ tail = [path.slash] ->
  length (joinElements es ++ tail) <= fuel ->
  path.cleanLoop fuel false (joinElements es ++ tail) out 0 =
  Some (rev (joinElements es)
          ++ (if (length out =? 0)%nat then out else path.slash :: out)).
Proof.
  induction es as [| e rest IH]; intros fuel tail out Hall Hne Htail Hfuel;
    [contradiction |].
  inversion Hall as [| ? ? He Hrest]; subst.
  destruct (plain_head e He) as (c & e' & Heq & _).
  destruct fuel as [| fuel].
  { subst e. destruct rest; simpl in Hfuel; lia. }
  destruct rest as [| e2 rest'].
  - cbn [joinElements] in *.
    rewrite cleanLoop_plain; [| assumption | destruct Htail; subst; reflexivity].
    destruct Htail; subst tail; [apply cleanLoop_nil |].
    destruct fuel as [| fuel].
    { rewrite length_app in Hfuel. subst e. simpl in Hfuel. lia. }
    cbn [path.cleanLoop]. rewrite Ascii.eqb_refl. apply cleanLoop_nil.
  - change (joinElements (e :: e2 :: rest'))
      with (e ++ path.slash :: joinElements (e2 :: rest')) in *.
    rewrite <- app_assoc. rewrite <- app_comm_cons.
    rewrite cleanLoop_plain; [| assumption | reflexivity].
    rewrite <- app_assoc, <- app_comm_cons, !length_app in Hfuel.
    cbn [length] in Hfuel.
    destruct fuel as [| fuel]; [subst e; cbn [length] in Hfuel; lia |].
    cbn [path.cleanLoop]. rewrite Ascii.eqb_refl.
    rewrite IH; try assumption; try discriminate.
    + rewrite length_app, length_rev.
      replace (length e + _ =? 0)%nat with false
        by (symmetry; apply Nat.eqb_neq; subst e; simpl; lia).
      rewrite rev_app_distr. simpl. rewrite <- !app_assoc. reflexivity.
    + subst e. cbn [length] in Hfuel. lia.
Qed.

Lemma of_bytes_length (l : list ascii) : String.length (of_bytes l) = length l.
Proof. rewrite <- bytes_length, bytes_of_bytes. reflexivity. Qed.

Lemma joinElements_head (e : list ascii) (rest : list (list ascii)) :
  plain e ->
  exists c l, joinElements (e :: rest) = c :: l /\ Ascii.eqb c path.slash = false.
Proof.
  intros He. destruct (plain_head e He) as (c & e' & -> & Hc).
  destruct rest; simpl; eauto.
Qed.

Lemma joinElements_snoc (es : list (list ascii)) (e : list ascii) :
  es <> [] -> joinElements (es ++ [e]) = joinElements es ++ path.slash :: e.
Proof.
  induction es as [| e1 rest IH]; intros Hne; [contradiction |].
  destruct rest as [| e2 rest']; [reflexivity |].
  change (joinElements ((e1 :: e2 :: rest') ++ [e]))
    with (e1 ++ path.slash :: joinElements ((e2 :: rest') ++ [e])).
  rewrite IH by discriminate.
  change (joinElements (e1 :: e2 :: rest'))
    with (e1 ++ path.slash :: joinElements (e2 :: rest')).
  rewrite <- app_assoc. reflexivity.
Qed.

(** [Clean] leaves a plain path as it is, and drops a slash at its end. *)
Lemma Clean_plainPath (es : list (list ascii)) (tail : list ascii) :
  Forall plain es -> es <> [] ->
  tail = [] \/ tail = [path.slash] ->
  path.Clean (of_bytes (joinElements es ++ tail)) = plainPath es.
Proof.
  intros Hall Hne Htail. unfold path.Clean, plainPath.
  rewrite bytes_of_bytes, of_bytes_length.
  destruct es as [| e rest]; [contradiction |].
  inversion Hall as [| ? ? He _]; subst.
  destruct (joinElements_head e rest He) as (c & l & Hj & Hc).
  rewrite Hj at 1. cbn [app]. rewrite Hc.
  rewrite cleanLoop_plainPath by (try assumption; lia).
  cbn [length Nat.eqb]. rewrite app_nil_r.
  destruct (rev (joinElements (e :: rest))) as [| r l'] eqn:Hrev.
  - apply (f_equal (@rev ascii)) in Hrev. rewrite rev_involutive, Hj in Hrev.
    discriminate.
  - rewrite <- Hrev, rev_involutive. reflexivity.
Qed.

Lemma LastIndexByte_absent (l : list ascii) (c : ascii) :
  ~ In c l -> path.LastIndexByte l c = None.
Proof.
  induction l as [| b l IH]; intros Hnot; [reflexivity |].
  simpl. rewrite IH by (intros H; apply Hnot; right; assumption).
  destruct (Ascii.eqb_spec b c) as [-> | Hne]; [| reflexivity].
  destruct Hnot. left. reflexivity.
Qed.

Lemma LastIndexByte_last (a b : list ascii) :
  ~ In path.slash b ->
  path.LastIndexByte (a ++ path.slash :: b) path.slash = Some (length a).
Proof.
  intros Hnot. induction a as [| x a IH].
  - simpl. rewrite (LastIndexByte_absent b _ Hnot). reflexivity.
  - cbn [app path.LastIndexByte length]. rewrite IH. reflexivity.
Qed.

Lemma sliceTo_app (a b : list ascii) :
  sliceTo (length a) (of_bytes (a ++ b)) = of_bytes a.
Proof.
  unfold sliceTo. induction a as [| x a IH].
  - destruct b; reflexivity.
  - simpl. f_equal. exact IH.
Qed.

Lemma sliceFrom_app (a b : list ascii) :
  sliceFrom (length a) (of_bytes (a ++ b)) = of_bytes b.
Proof. induction a as [| x a IH]; [reflexivity | exact IH]. Qed.

(** [Split] cuts a plain path before its last element. *)
Lemma Split_plainPath (es : list (list ascii)) (file : list ascii) :
  es <> [] -> ~ In path.slash file ->
  path.Split (plainPath (es ++ [file]))
  = (of_bytes (joinElements es ++ [path.slash]), of_bytes file).
Proof.
  intros Hne Hfile. unfold path.Split, plainPath.
  rewrite joinElements_snoc by assumption.
  rewrite bytes_of_bytes, LastIndexByte_last by assumption.
  f_equal.
  - replace (S (length (joinElements es)))
      with (length (joinElements es ++ [path.slash]))
      by (rewrite length_app; simpl; lia).
    replace (joinElements es ++ path.slash :: file)
      with ((joinElements es ++ [path.slash]) ++ file)
      by (rewrite <- app_assoc; reflexivity).
    apply sliceTo_app.
  - replace (S (length (joinElements es)))
      with (length (joinElements es ++ [path.slash]))
      by (rewrite length_app; simpl; lia).
    replace (joinElements es ++ path.slash :: file)
      with ((joinElements es ++ [path.slash]) ++ file)
      by (rewrite <- app_assoc; reflexivity).
    apply sliceFrom_app.
Qed.

(** [Dir] of a plain path is the plain path of the elements before the
    last, and [.] when there is none. *)
Lemma Dir_plainPath (es : list (list ascii)) (file : list ascii) :
  Forall plain es -> es <> [] -> ~ In path.slash file ->
  path.Dir (plainPath (es ++ [file])) = plainPath es.
Proof.
  intros Hall Hne Hfile. unfold path.Dir.
  rewrite Split_plainPath by assumption.
  apply Clean_plainPath; auto.
Qed.

Lemma Dir_plain_file (file : list ascii) :
  ~ In path.slash file -> path.Dir (plainPath [file]) = ".".
Proof.
  intros Hfile. unfold path.Dir, path.Split, plainPath. cbn [joinElements].
  rewrite bytes_of_bytes, (LastIndexByte_absent file _ Hfile). reflexivity.
Qed.

Lemma of_bytes_nonempty (l : list ascii) : l <> [] -> String.eqb (of_bytes l) "" = false.
Proof. destruct l; [contradiction | reflexivity]. Qed.

Lemma stripSlashes_plain (l e : list ascii) :
  plain e -> path.stripSlashes (rev (l ++ e)) = rev (l ++ e).
Proof.
  intros (Hne & Hslash & _).
  destruct (exists_last Hne) as (e' & c & ->).
  rewrite app_assoc, rev_app_distr. cbn [rev app path.stripSlashes].
  destruct (Ascii.eqb_spec c path.slash) as [-> | Hc]; [| reflexivity].
  destruct Hslash. apply in_or_app. right. left. reflexivity.
Qed.

(** [Base] of a plain path is its last element. *)
Lemma Base_plainPath (es : list (list ascii)) (e : list ascii) :
  plain e -> path.Base (plainPath (es ++ [e])) = of_bytes e.
Proof.
  intros He. pose proof He as (Hne & Hslash & _).
  unfold path.Base, plainPath.
  assert (Hj : exists l, joinElements (es ++ [e]) = l ++ e
                         /\ (es = [] /\ l = []
                             \/ es <> [] /\ l = joinElements es ++ [path.slash])).
  { destruct es as [| e1 rest].
    - exists []. auto.
    - exists (joinElements (e1 :: rest) ++ [path.slash]).
      rewrite joinElements_snoc by discriminate.
      rewrite <- app_assoc. split; [reflexivity |]. right. split; [discriminate | reflexivity]. }
  destruct Hj as (l & Hj & Hl). rewrite Hj.
  rewrite of_bytes_nonempty by (destruct l; [assumption | discriminate]).
  cbv zeta. rewrite (bytes_of_bytes (l ++ e)), stripSlashes_plain by assumption.
  rewrite rev_involutive, bytes_of_bytes.
  destruct Hl as [[_ ->] | [_ ->]].
  - cbn [app]. rewrite (LastIndexByte_absent e _ Hslash).
    rewrite of_bytes_nonempty by assumption. reflexivity.
  - rewrite <- app_assoc. cbn [app].
    rewrite LastIndexByte_last by assumption.
    replace (S (length (joinElements es)))
      with (length (joinElements es ++ [path.slash]))
      by (rewrite length_app; simpl; lia).
    replace (joinElements es ++ path.slash :: e)
      with ((joinElements es ++ [path.slash]) ++ e)
      by (rewrite <- app_assoc; reflexivity).
    rewrite sliceFrom_app, of_bytes_nonempty by assumption. reflexivity.
Qed.

Lemma Clean_plainPath_id (es : list (list ascii)) :
  Forall plain es -> es <> [] -> path.Clean (plainPath es) = plainPath es.
Proof.
  intros Hall Hne. unfold plainPath at 1.
  rewrite <- (app_nil_r (joinElements es)).
  apply Clean_plainPath; auto.
Qed.

(** ** Scope resolution on plain origin paths *)

(** The directory a Resource is scoped by, for a Resource read from a file
    in the directory [functions] of the plain directory [es]: the
    directory [es] itself, [.] when it is the top directory. *)
Lemma scopedDir_functions (es : list (list ascii)) (file : list ascii) :
  Forall plain es -> plain file ->
  scopedDir (plainPath (es ++ [bytes functionsDirectoryName; file]))
  = match es with [] => "." | _ => plainPath es end.
Proof.
  intros Hall Hfile.
  assert (Hfn : plain (bytes functionsDirectoryName)).
  { repeat split; try discriminate. vm_compute. intros H.
    repeat (destruct H as [H | H]; [discriminate H |]). exact H. }
  assert (Hall' : Forall plain (es ++ [bytes functionsDirectoryName])).
  { apply Forall_app. split; [assumption | constructor; [assumption | constructor]]. }
  assert (Hne : es ++ [bytes functionsDirectoryName] <> []) by (destruct es; discriminate).
  destruct Hfile as (_ & Hslash & _).
  unfold scopedDir, rewriteForReservedDir.
  replace (es ++ [bytes functionsDirectoryName; file])
    with ((es ++ [bytes functionsDirectoryName]) ++ [file])
    by (rewrite <- app_assoc; reflexivity).
  rewrite Dir_plainPath by assumption.
  rewrite Clean_plainPath_id by assumption.
  rewrite Base_plainPath by assumption.
  rewrite of_bytes_bytes, String.eqb_refl.
  destruct es as [| e rest].
  - apply Dir_plain_file. destruct Hfn as (_ & H & _). exact H.
  - apply Dir_plainPath; [assumption | discriminate |].
    destruct Hfn as (_ & H & _). exact H.
Qed.

(** The directory a Resource is scoped by, for a Resource read from a file
    in a plain directory whose last element is not [functions]: that
    directory. *)
Lemma scopedDir_plain (es : list (list ascii)) (d file : list ascii) :
  Forall plain es -> plain d -> plain file ->
  of_bytes d <> functionsDirectoryName ->
  scopedDir (plainPath (es ++ [d; file])) = plainPath (es ++ [d]).
Proof.
  intros Hall Hd Hfile Hnot.
  assert (Hall' : Forall plain (es ++ [d])).
  { apply Forall_app. split; [assumption | constructor; [assumption | constructor]]. }
  assert (Hne : es ++ [d] <> []) by (destruct es; discriminate).
  destruct Hfile as (_ & Hslash & _).
  unfold scopedDir, rewriteForReservedDir.
  replace (es ++ [d; file]) with ((es ++ [d]) ++ [file])
    by (rewrite <- app_assoc; reflexivity).
  rewrite Dir_plainPath by assumption.
  rewrite Clean_plainPath_id by assumption.
  rewrite Base_plainPath by assumption.
  destruct (String.eqb_spec (of_bytes d) functionsDirectoryName); [contradiction |].
  reflexivity.
Qed.

(** Scope resolution is [scopedDir] of the origin path of the function
    configuration. *)
Lemma getFunctionScope_scopedDir c p :
  originPath (Config c) = Some p -> getFunctionScope c = (scopedDir p, None).
Proof.
  unfold originPath, getFunctionScope.
  destruct (GetMeta (Config c)) as [m [e |]]; [discriminate |].
  intros ->. reflexivity.
Qed.

Example scopedDir_examples :
  map scopedDir ["functions/fn.yaml"; "stuff/functions/fn.yaml"; "apps/deployment.yaml";
                 "a/b/functions/c.yaml"; "fn.yaml"]
  = ["."; "stuff"; "apps"; "a/b"; "."].
Proof. reflexivity. Qed.

(** * Further properties of the code *)

(** ** Package strings on a separator of one byte *)

Lemma prefix_nil (s : string) : String.prefix "" s = true.
Proof. destruct s; reflexivity. Qed.

Lemma append_cons (c : ascii) (s t : string) : String c s +:+ t = String c (s +:+ t).
Proof. reflexivity. Qed.

Lemma append_assoc (s t u : string) : (s +:+ t) +:+ u = s +:+ (t +:+ u).
Proof.
  induction s as [| a s IH]; [reflexivity |].
  rewrite !append_cons, IH. reflexivity.
Qed.

Lemma append_length (s t : string) :
  String.length (s +:+ t) = String.length s + String.length t.
Proof.
  induction s as [| a s IH]; [reflexivity |].
  rewrite append_cons. simpl. rewrite IH. reflexivity.
Qed.

Lemma bytes_append (s t : string) : bytes (s +:+ t) = bytes s ++ bytes t.
Proof.
  induction s as [| a s IH]; [reflexivity |].
  rewrite append_cons. simpl. f_equal. exact IH.
Qed.

(** The first instance of a byte that is not in [a] is right after [a]. *)
Lemma Index_first (a b : string) (c : ascii) :
  ~ In c (bytes a) ->
  strings.Index (a +:+ String c b) (String c "") = Some (String.length a).
Proof.
  induction a as [| x a IH]; intros Hnot.
  - change ("" +:+ String c b) with (String c b). simpl.
    destruct (ascii_dec c c); [| contradiction]. rewrite prefix_nil. reflexivity.
  - rewrite append_cons. simpl.
    destruct (ascii_dec c x) as [-> | Hne].
    + destruct Hnot. left. reflexivity.
    + rewrite IH by (intros H; apply Hnot; right; assumption). reflexivity.
Qed.

Lemma sliceTo_append (a b : string) : sliceTo (String.length a) (a +:+ b) = a.
Proof.
  unfold sliceTo. induction a as [| x a IH].
  - destruct b; reflexivity.
  - rewrite append_cons. simpl. f_equal. exact IH.
Qed.

Lemma sliceFrom_append (a b : string) : sliceFrom (String.length a) (a +:+ b) = b.
Proof. induction a as [| x a IH]; [reflexivity | exact IH]. Qed.

Lemma sliceFrom_append_cons (a b : string) (c : ascii) k :
  k = String.length a + 1 -> sliceFrom k (a +:+ String c b) = b.
Proof.
  intros ->. replace (a +:+ String c b) with ((a +:+ String c "") +:+ b)
    by (rewrite append_assoc; reflexivity).
  replace (String.length a + 1) with (String.length (a +:+ String c ""))
    by (rewrite append_length; reflexivity).
  apply sliceFrom_append.
Qed.

Lemma countLoop_acc (substr : string) : forall fuel s n,
  strings.countLoop fuel s substr (S n) = S (strings.countLoop fuel s substr n).
Proof.
  induction fuel as [| fuel IH]; intros s n; [reflexivity |].
  cbn [strings.countLoop]. destruct (strings.Index s substr); [apply IH | reflexivity].
Qed.

Lemma Count_absent (s : string) (c : ascii) :
  ~ In c (bytes s) -> strings.Count s (String c "") = 0.
Proof.
  intros Hnot. unfold strings.Count. simpl.
  destruct (String.length s); cbn [strings.countLoop]; [reflexivity |].
  rewrite Index_absent by assumption. reflexivity.
Qed.

Lemma Count_first (a b : string) (c : ascii) :
  ~ In c (bytes a) ->
  strings.Count (a +:+ String c b) (String c "") = S (strings.Count b (String c "")).
Proof.
  intros Hnot. unfold strings.Count. simpl String.eqb. cbv iota.
  rewrite append_length. simpl String.length.
  replace (String.length a + S (String.length b))
    with (S (String.length b + String.length a)) by lia.
  cbn [strings.countLoop]. rewrite Index_first by assumption.
  rewrite sliceFrom_append_cons by (simpl; lia).
  rewrite countLoop_fuel by (try discriminate; lia).
  apply countLoop_acc.
Qed.

(** [Split] cuts at the first separator and splits what follows. *)
Lemma Split_first (a b : string) (c : ascii) :
  ~ In c (bytes a) ->
  strings.Split (a +:+ String c b) (String c "") = a :: strings.Split b (String c "").
Proof.
  intros Hnot. unfold strings.Split, strings.genSplit. simpl.
  rewrite Count_first by assumption. cbn [strings.splitLoop].
  rewrite Index_first by assumption.
  rewrite sliceTo_append, sliceFrom_append_cons by (simpl; lia).
  reflexivity.
Qed.

Lemma Split_absent (s : string) (c : ascii) :
  ~ In c (bytes s) -> strings.Split s (String c "") = [s].
Proof.
  intros Hnot. unfold strings.Split, strings.genSplit. simpl.
  rewrite Count_absent by assumption. reflexivity.
Qed.

(** The first element [Split] returns is the string up to the first
    separator. *)
Lemma Split_hd (s sep : string) :
  sep <> "" ->
  hd "" (strings.Split s sep) =
  match strings.Index s sep with
  | Some m => sliceTo m s
  | None => s
  end.
Proof.
  intros Hsep. unfold strings.Split, strings.genSplit. simpl.
  destruct (String.eqb_spec sep ""); [contradiction |].
  unfold strings.Count. destruct (String.eqb_spec sep ""); [contradiction |].
  destruct (strings.Index s sep) as [m |] eqn:Hi.
  - destruct s as [| x s].
    + rewrite Index_empty in Hi by assumption. discriminate.
    + cbn [String.length strings.countLoop]. rewrite Hi, countLoop_acc.
      cbn [strings.splitLoop]. rewrite Hi. reflexivity.
  - destruct (strings.countLoop _ s sep 0); cbn [strings.splitLoop];
      [| rewrite Hi]; reflexivity.
Qed.
(** ** StringToStorageMount on options with a value *)

(** The first loop on options that all have a [=]: every option assigns its
    value to its key, in turn. *)
Lemma readOptions_returns (options : list string) : forall m,
  Forall (fun o => strings.Index o "=" <> None) options ->
  readOptions options m
  = Returns (fold_left (fun m o => <[keyOf o := valueOf o]> m) options m).
Proof.
  induction options as [| o rest IH]; intros m Hall; [reflexivity |].
  inversion Hall as [| ? ? Ho Hrest]; subst.
  cbn [readOptions fold_left]. rewrite SplitN_2 by discriminate.
  unfold keyOf, valueOf.
  destruct (strings.Index o "=") as [i |]; [| contradiction].
  cbn. apply IH. assumption.
Qed.

Lemma find_snoc {A : Type} (f : A -> bool) (l : list A) (x : A) :
  find f (l ++ [x]) =
  match find f l with
  | Some y => Some y
  | None => if f x then Some x else None
  end.
Proof.
  induction l as [| y l IH]; simpl; [reflexivity |].
  destruct (f y); [reflexivity | exact IH].
Qed.

(** What the map of the options holds for a key: the value of the last
    option with that key. *)
Lemma lookup_options (key : string) (options : list string) :
  forall m : gmap string string,
  fold_left (fun m o => <[keyOf o := valueOf o]> m) options m !! key =
  match find (fun o => String.eqb (keyOf o) key) (rev options) with
  | Some o => Some (valueOf o)
  | None => m !! key
  end.
Proof.
  induction options as [| o rest IH]; intros m; [reflexivity |].
  cbn [fold_left rev]. rewrite IH, find_snoc.
  destruct (find _ (rev rest)); [reflexivity |].
  destruct (String.eqb_spec (keyOf o) key) as [<- | Hne].
  - apply lookup_insert_eq.
  - apply lookup_insert_ne. assumption.
Qed.

(** X1: on a string whose options all have a [=], StringToStorageMount
    returns, and each field of the mount is the value of the last option
    with the key [type], [src] or [dst], the empty string when there is no
    such option; options with other keys are ignored. *)
Theorem StringToStorageMount_last_option_wins (s : string) :
  Forall (fun o => strings.Index o "=" <> None) (strings.Split s ",") ->
  StringToStorageMount s
  = Returns (mkStorageMount (lastValue "type" (strings.Split s ","))
               (lastValue "src" (strings.Split s ","))
               (lastValue "dst" (strings.Split s ","))).
Proof.
  intros Hall. unfold StringToStorageMount.
  rewrite readOptions_returns by assumption. cbn [obind].
  rewrite map_fold_setField. unfold mountOf, lastValue.
  rewrite !lookup_options, !lookup_empty.
  f_equal. f_equal;
    match goal with |- context [find ?f ?l] => destruct (find f l) end; reflexivity.
Qed.

Lemma StringToStorageMount_last_option_wins_witness :
  StringToStorageMount "src=/a,type=bind,src=/b,mode=rw"
  = Returns (mkStorageMount "bind" "/b" "").
Proof.
  rewrite (StringToStorageMount_last_option_wins "src=/a,type=bind,src=/b,mode=rw").
  - reflexivity.
  - repeat constructor; discriminate.
Defined.

Lemma not_in_append (c : ascii) (s t : string) :
  ~ In c (bytes s) -> ~ In c (bytes t) -> ~ In c (bytes (s +:+ t)).
Proof.
  intros Hs Ht. rewrite bytes_append. intros H.
  apply in_app_or in H. tauto.
Qed.

Lemma keyOf_literal (key rest : string) :
  ~ In "="%char (bytes key) ->
  strings.Index (key +:+ String "=" rest) "=" = Some (String.length key).
Proof. apply Index_first. Qed.

(** X2: a mount written by [String] and read back by StringToStorageMount
    keeps its type and its source, and has [:ro] at the end of its
    destination, when no field of the mount has a comma. *)
Theorem StringToStorageMount_of_String (sm : StorageMount) :
  ~ In ","%char (bytes (MountType sm)) ->
  ~ In ","%char (bytes (Src sm)) ->
  ~ In ","%char (bytes (DstPath sm)) ->
  StringToStorageMount (StorageMount_String sm)
  = Returns (mkStorageMount (MountType sm) (Src sm) (DstPath sm +:+ ":ro")).
Proof.
  destruct sm as [t src dst]. cbn [MountType Src DstPath]. intros Ht Hs Hd.
  assert (Hlit : forall lit : string,
             ~ In ","%char (bytes lit) -> forall x, ~ In ","%char (bytes x) ->
             ~ In ","%char (bytes (lit +:+ x))).
  { intros lit Hl x Hx. apply not_in_append; assumption. }
  assert (H5 : ~ In ","%char (bytes "type=")).
  { simpl. intros H. repeat (destruct H as [H | H]; [discriminate H |]). exact H. }
  assert (H4 : ~ In ","%char (bytes "src=")).
  { simpl. intros H. repeat (destruct H as [H | H]; [discriminate H |]). exact H. }
  assert (H4' : ~ In ","%char (bytes "dst=")).
  { simpl. intros H. repeat (destruct H as [H | H]; [discriminate H |]). exact H. }
  assert (Hro : ~ In ","%char (bytes ":ro")).
  { simpl. intros H. repeat (destruct H as [H | H]; [discriminate H |]). exact H. }
  assert (Hsplit : strings.Split (StorageMount_String (mkStorageMount t src dst)) ","
                   = ["type=" +:+ t; "src=" +:+ src; "dst=" +:+ dst +:+ ":ro"]).
  { unfold StorageMount_String. cbn [MountType Src DstPath].
    change (",src=" +:+ src +:+ ",dst=" +:+ dst +:+ ":ro")
      with (String "," ("src=" +:+ src +:+ ",dst=" +:+ dst +:+ ":ro")).
    rewrite <- (append_assoc "type=" t).
    rewrite Split_first by (apply Hlit; assumption).
    change (",dst=" +:+ dst +:+ ":ro") with (String "," ("dst=" +:+ dst +:+ ":ro")).
    rewrite <- (append_assoc "src=" src).
    rewrite Split_first by (apply Hlit; assumption).
    rewrite Split_absent; [reflexivity |].
    apply Hlit; [assumption |]. apply not_in_append; assumption. }
  unfold StringToStorageMount. rewrite Hsplit.
  cbn [readOptions]. rewrite !SplitN_2 by discriminate.
  change ("type=" +:+ t) with ("type" +:+ String "=" t).
  change ("src=" +:+ src) with ("src" +:+ String "=" src).
  change ("dst=" +:+ dst +:+ ":ro") with ("dst" +:+ String "=" (dst +:+ ":ro")).
  rewrite !keyOf_literal
    by (simpl; intros H; repeat (destruct H as [H | H]; [discriminate H |]); exact H).
  cbn [obind at_index lookup list_lookup String.length].
  rewrite !sliceFrom_append_cons by reflexivity.
  change (sliceTo 4 ("type" +:+ String "=" t)) with (sliceTo (String.length "type") ("type" +:+ String "=" t)).
  change (sliceTo 3 ("src" +:+ String "=" src)) with (sliceTo (String.length "src") ("src" +:+ String "=" src)).
  change (sliceTo 3 ("dst" +:+ String "=" (dst +:+ ":ro")))
    with (sliceTo (String.length "dst") ("dst" +:+ String "=" (dst +:+ ":ro"))).
  rewrite !sliceTo_append.
  rewrite map_fold_setField. unfold mountOf.
  rewrite lookup_insert_ne, lookup_insert_ne, lookup_insert_eq by discriminate.
  rewrite (lookup_insert_ne _ "dst" "src"), (lookup_insert_eq _ "src") by discriminate.
  rewrite (lookup_insert_eq _ "dst").
  reflexivity.
Qed.

Lemma StringToStorageMount_of_String_witness :
  StringToStorageMount (StorageMount_String (mkStorageMount "bind" "/host" "/mnt"))
  = Returns (mkStorageMount "bind" "/host" "/mnt:ro").
Proof.
  apply (StringToStorageMount_of_String (mkStorageMount "bind" "/host" "/mnt"));
    simpl; intros H; repeat (destruct H as [H | H]; [discriminate H |]); exact H.
Defined.
(** ** The command *)

Lemma fold_left_appends {A B : Type} (g : list A -> B -> list A) (f : B -> list A) :
  (forall acc x, g acc x = acc ++ f x) ->
  forall l acc, fold_left g l acc = acc ++ flat_map f l.
Proof.
  intros Hg. induction l as [| x l IH]; intros acc; simpl.
  - rewrite app_nil_r. reflexivity.
  - rewrite IH, Hg, <- app_assoc. reflexivity.
Qed.

(** X3: the arguments of the command are the fixed options of docker run
    with the network of the filter ([none] when it has none), then
    [--mount] and the mount for every mount, then [-e] and the name for
    every entry of the environment (the text before its first [=]; an entry
    with an empty name is skipped), then the image. *)
Theorem getArgs_shape (w : World) (c : ContainerFilter) :
  getArgs w c =
  ["docker"; "run"; "--rm"; "-i"; "-a"; "STDIN"; "-a"; "STDOUT"; "-a"; "STDERR";
   "--network"; (if String.eqb (Network c) "" then "none" else Network c);
   "--user"; "nobody"; "--security-opt=no-new-privileges"]
  ++ flat_map mountArgs (StorageMounts c)
  ++ flat_map exportArgs (os_Environ w)
  ++ [Image c].
Proof.
  unfold getArgs.
  rewrite (fold_left_appends _ mountArgs) by reflexivity.
  rewrite (fold_left_appends _ exportArgs).
  - destruct (String.eqb (Network c) ""); simpl; rewrite <- !app_assoc; reflexivity.
  - intros acc pair. cbv zeta. unfold exportArgs.
    rewrite Split_hd by discriminate. fold (keyOf pair).
    destruct (String.eqb (keyOf pair) ""); [rewrite app_nil_r |]; reflexivity.
Qed.

Lemma getArgs_nonempty (w : World) (c : ContainerFilter) : getArgs w c <> [].
Proof. unfold getArgs. intros H. apply app_eq_nil in H. destruct H as [_ H]. discriminate. Qed.

(** X4: after [getCommand] the filter has arguments, so that [c.args[0]] is
    there, and the command has those arguments; a later call, in whatever
    environment, leaves the filter as it is and builds the command from
    the same arguments: they are computed once. *)
Theorem getCommand_computes_args_once (w w' : World) (c : ContainerFilter) :
  args (getCommand w c).1 <> []
  /\ cmd_args (getCommand w c).2 = args (getCommand w c).1
  /\ getCommand w' (getCommand w c).1
     = ((getCommand w c).1, mkCmd (args (getCommand w c).1) (os_Environ w')).
Proof.
  destruct c as [img net mounts [st me bo] gl rf rs df ex fl ar].
  unfold getCommand. cbn [SetFlowStyleForConfig].
  destruct fl; cbn [withConfig args Image Network StorageMounts Config GlobalScope
                    ResultsFile Results DeferFailure Exit SetFlowStyleForConfig
                    meta body];
    destruct ar as [| a ar];
    cbn [length Nat.eqb withArgs withConfig args Image Network StorageMounts Config
         GlobalScope ResultsFile Results DeferFailure Exit SetFlowStyleForConfig
         meta body fst snd cmd_args];
    (split; [first [apply getArgs_nonempty | discriminate] |]);
    (split; [reflexivity |]);
    match goal with
    | |- context [getArgs ?w0 ?c0] =>
        pose proof (getArgs_nonempty w0 c0) as Hne;
        destruct (getArgs w0 c0) as [| x l] eqn:Hg; [contradiction | reflexivity]
    | _ => reflexivity
    end.
Qed.

(** X5: when [doResults] returns an error (the results cannot be written to
    the file), the filter is unchanged: the results are not kept. Without
    error the reader's results are kept, and without results of the reader
    the filter is unchanged, so that the results of an earlier call stay.
    With no file configured or no results there is no error. *)
Theorem doResults_outcome (w : World) (c c' : ContainerFilter)
  (results : option RNode) (err : option Error) :
  doResults w c results = (c', err) ->
  (err <> None -> c' = c)
  /\ (err = None ->
      c' = match results with Some r => withResults (Some r) c | None => c end)
  /\ (ResultsFile c = "" \/ results = None -> err = None).
Proof.
  unfold doResults. intros H.
  destruct results as [r |].
  - destruct (String.eqb_spec (ResultsFile c) "") as [He | He]; cbn [negb] in H.
    + inversion H; subst. intuition congruence.
    + destruct (RNode_String w r) as [text [e |]].
      * inversion H; subst. intuition congruence.
      * destruct (ioutil_WriteFile w (ResultsFile c) text) as [e |];
          inversion H; subst; intuition congruence.
  - inversion H; subst. intuition congruence.
Qed.

Lemma doResults_outcome_witness :
  let c := resultsFilter false in
  let r := resourceNoPath "Results" "results" in
  let err := Some (ErrorString "no space left on device") in
  doResults fullDiskWorld c (Some r) = (c, err)
  /\ (err <> None -> c = c)
  /\ (err = None -> c = withResults (Some r) c)
  /\ (ResultsFile c = "" \/ Some r = None -> err = None).
Proof.
  intros c r err.
  assert (H : doResults fullDiskWorld c (Some r) = (c, err)) by reflexivity.
  split; [exact H |].
  exact (doResults_outcome fullDiskWorld c c (Some r) err H).
Defined.

(** ** Filter and the exit status *)

(** X6: once the input is written, Filter runs the command and the filter
    it leaves has the error of that run as [Exit], whatever follows: also
    when the output cannot be decoded, the results cannot be written or
    provenance defaulting fails, and Filter returns another error. *)
Theorem Filter_records_exit (w : World) (c : ContainerFilter) (nodes : list RNode)
  (functionDir : string) (input saved : list RNode) (in_ out : string)
  (exit : option Error) :
  getFunctionScope c = (functionDir, None) ->
  scope c functionDir nodes = (input, saved, None) ->
  ByteWriter_Write w (Config (getCommand w c).1) input = (in_, None) ->
  cmd_Run w (cmd_args (getCommand w c).2) (cmd_Env (getCommand w c).2) in_ = (out, exit) ->
  GetExit (Filter w c nodes).1 = exit.
Proof.
  intros Hdir Hscope Hw Hrun.
  destruct (getCommand_frame w c) as (Hmeta & Hglobal & _).
  pose proof (getFunctionScope_meta c (getCommand w c).1 Hmeta) as Hsame.
  pose proof (scope_flag c (getCommand w c).1 functionDir nodes Hglobal) as Hflag.
  unfold GetExit, Filter.
  destruct (getCommand w c) as [c1 cmd]. cbn [fst snd] in *.
  rewrite Hsame, Hdir, Hflag, Hscope, Hw, Hrun.
  destruct (ByteReader_Read w out) as [[output results] [e |]]; [reflexivity |].
  destruct (doResults w (withExit exit c1) results) as [c2 e] eqn:Hres.
  destruct (doResults_frame _ _ _ _ _ Hres) as [He _]. cbn [withExit Exit] in He.
  destruct e as [e |]; [exact He |].
  destruct (bool_decide (Exit c2 <> None) && negb (DeferFailure c2)); [exact He |].
  destruct (DefaultPathAnnotation w functionDir output) as [output' [e |]]; exact He.
Qed.

Lemma Filter_records_exit_witness :
  GetExit (Filter fullDiskWorld (resultsFilter true) sampleNodes).1 = Some (ExitError 1)
  /\ (Filter fullDiskWorld (resultsFilter true) sampleNodes).2
     = ([], Some (ErrorString "no space left on device")).
Proof.
  split; [| vm_compute; reflexivity].
  apply (Filter_records_exit fullDiskWorld (resultsFilter true) sampleNodes "dir"
           [resourceAt "dir/a.yaml" "ConfigMap" "a"; resourceAt "dir/sub/b.yaml" "ConfigMap" "b"]
           [resourceAt "other/c.yaml" "ConfigMap" "c"] "ResourceList" "ResourceList");
    vm_compute; reflexivity.
Defined.



(** ** The partition, again *)

Lemma filter_Forall_id (P : RNode -> Prop) `{!forall x, Decision (P x)} (l : list RNode) :
  Forall P l -> filter P l = l.
Proof.
  induction l as [| x l IH]; intros HP; [reflexivity |].
  inversion HP; subst. rewrite filter_cons_True by assumption.
  rewrite IH by assumption. reflexivity.
Qed.

Lemma filter_Forall_nil (P : RNode -> Prop) `{!forall x, Decision (P x)} (l : list RNode) :
  Forall (fun x => ~ P x) l -> filter P l = [].
Proof.
  induction l as [| x l IH]; intros HP; [reflexivity |].
  inversion HP; subst. rewrite filter_cons_False by assumption. auto.
Qed.

Lemma Forall_filter_holds (P : RNode -> Prop) `{!forall x, Decision (P x)} (l : list RNode) :
  Forall P (filter P l).
Proof. apply Forall_forall. intros x Hx. apply list_elem_of_filter in Hx. tauto. Qed.

Lemma Forall_filter_keeps (P Q : RNode -> Prop) `{!forall x, Decision (P x)} (l : list RNode) :
  Forall Q l -> Forall Q (filter P l).
Proof.
  rewrite !Forall_forall. intros HQ x Hx. apply list_elem_of_filter in Hx.
  apply HQ. tauto.
Qed.

(** X8: the in-scope slice of a partition is all in scope, and the
    out-of-scope slice all out of scope, when partitioned again by the same
    filter and directory. *)
Theorem scope_again (c : ContainerFilter) (dir : string) (nodes input saved : list RNode) :
  scope c dir nodes = (input, saved, None) ->
  scope c dir input = (input, [], None)
  /\ scope c dir saved = ([], saved, None).
Proof.
  intros H.
  destruct (GlobalScope c) eqn:Hg;
    [| destruct (String.eqb_spec dir "") as [He | He];
       [| destruct (String.eqb_spec dir ".") as [Hd | Hd]]].
  1-3: rewrite scope_global in H by auto; inversion H; subst;
       rewrite !scope_global by auto; auto.
  assert (Hs : scoped c dir) by (repeat split; assumption).
  destruct (scope_ok _ _ _ _ _ Hs H) as (Hall & -> & ->).
  rewrite !scope_scoped by assumption.
  rewrite !scopeLoop_readable by (apply Forall_filter_keeps; assumption).
  cbn [app]. split; f_equal; try f_equal.
  - apply filter_Forall_id, Forall_filter_holds.
  - apply filter_Forall_nil.
    eapply Forall_impl; [apply (Forall_filter_holds (fun n => inScope dir n)) |].
    simpl. tauto.
  - apply filter_Forall_nil, Forall_filter_holds.
  - apply filter_Forall_id, Forall_filter_holds.
Qed.

Lemma scope_again_witness :
  let c := sampleFilter false in
  let a := resourceAt "dir/a.yaml" "ConfigMap" "a" in
  let b := resourceAt "dir/sub/b.yaml" "ConfigMap" "b" in
  let o := resourceAt "other/c.yaml" "ConfigMap" "c" in
  scope c "dir" [a; b] = ([a; b], [], None) /\ scope c "dir" [o] = ([], [o], None).
Proof.
  intros c a b o.
  apply (scope_again c "dir" sampleNodes [a; b] [o]).
  vm_compute. reflexivity.
Defined.

(** X9: the partition of two lists one after the other is the partition of
    the first followed by the partition of the second, slice by slice. *)
Theorem scope_app (c : ContainerFilter) (dir : string)
  (nodes1 nodes2 input1 saved1 input2 saved2 : list RNode) :
  scope c dir nodes1 = (input1, saved1, None) ->
  scope c dir nodes2 = (input2, saved2, None) ->
  scope c dir (nodes1 ++ nodes2) = (input1 ++ input2, saved1 ++ saved2, None).
Proof.
  intros H1 H2.
  destruct (GlobalScope c) eqn:Hg;
    [| destruct (String.eqb_spec dir "") as [He | He];
       [| destruct (String.eqb_spec dir ".") as [Hd | Hd]]].
  1-3: rewrite scope_global in H1, H2 by auto; inversion H1; inversion H2; subst;
       rewrite scope_global by auto; reflexivity.
  assert (Hs : scoped c dir) by (repeat split; assumption).
  destruct (scope_ok _ _ _ _ _ Hs H1) as (Hall1 & -> & ->).
  destruct (scope_ok _ _ _ _ _ Hs H2) as (Hall2 & -> & ->).
  rewrite scope_scoped by assumption.
  rewrite scopeLoop_readable by (apply Forall_app; split; assumption).
  cbn [app]. rewrite !filter_app. reflexivity.
Qed.

Lemma scope_app_witness :
  let c := sampleFilter false in
  let a := resourceAt "dir/a.yaml" "ConfigMap" "a" in
  let o := resourceAt "other/c.yaml" "ConfigMap" "c" in
  let u := resourceNoPath "Service" "bar" in
  scope c "dir" ([a; o] ++ [u; a]) = ([a] ++ [a], [o] ++ [u], None).
Proof.
  intros c a o u.
  apply (scope_app c "dir" [a; o] [u; a] [a] [o] [a] [u]); vm_compute; reflexivity.
Defined.


(** ** The scoping rules on plain paths *)

Lemma joinElements_app (es ds : list (list ascii)) :
  es <> [] -> ds <> [] ->
  joinElements (es ++ ds) = joinElements es ++ path.slash :: joinElements ds.
Proof.
  intros Hes Hds. induction es as [| e rest IH]; [contradiction |].
  destruct rest as [| e2 rest'].
  - destruct ds as [| d ds']; [contradiction | reflexivity].
  - change (joinElements ((e :: e2 :: rest') ++ ds))
      with (e ++ path.slash :: joinElements ((e2 :: rest') ++ ds)).
    rewrite IH by discriminate.
    change (joinElements (e :: e2 :: rest'))
      with (e ++ path.slash :: joinElements (e2 :: rest')).
    rewrite <- app_assoc. reflexivity.
Qed.

Lemma prefix_of_bytes_app (a b : list ascii) :
  String.prefix (of_bytes a) (of_bytes (a ++ b)) = true.
Proof.
  induction a as [| x a IH]; [apply prefix_nil |].
  simpl. destruct (ascii_dec x x); [exact IH | contradiction].
Qed.

Lemma prefix_length (p s : string) :
  String.prefix p s = true -> String.length p <= String.length s.
Proof.
  revert s. induction p as [| a p IH]; intros s H; [simpl; lia |].
  destruct s as [| b s]; simpl in H; [discriminate |].
  destruct (ascii_dec a b); [| discriminate].
  apply IH in H. simpl. lia.
Qed.

Lemma plainPath_scoped (es : list (list ascii)) :
  Forall plain es -> es <> [] -> plainPath es <> "" /\ plainPath es <> ".".
Proof.
  intros Hall Hne. destruct es as [| e rest]; [contradiction |].
  inversion Hall as [| ? ? (He & _ & Hdot & _) _]; subst.
  unfold plainPath.
  split; intros H; apply (f_equal bytes) in H; rewrite bytes_of_bytes in H.
  - destruct rest; simpl in H; [contradiction |].
    destruct e; discriminate.
  - destruct rest as [| e2 rest']; [contradiction |].
    change (joinElements (e :: e2 :: rest'))
      with (e ++ path.slash :: joinElements (e2 :: rest')) in H.
    destruct e as [| x [| y e']]; [contradiction | discriminate | discriminate].
Qed.

Lemma plain_functions : plain (bytes functionsDirectoryName).
Proof.
  repeat split; try discriminate. vm_compute. intros H.
  repeat (destruct H as [H | H]; [discriminate H |]). exact H.
Qed.

(** A node whose directory passes the test of [scope] is in scope. *)
Lemma scope_single_in c dir node p :
  originPath node = Some p ->
  strings.HasPrefix (scopedDir p) dir = true ->
  scope c dir [node] = ([node], [], None).
Proof.
  intros Hp Hpre. unfold scope.
  destruct (GlobalScope c); [reflexivity |].
  destruct (String.eqb dir "" || String.eqb dir "."); [reflexivity |].
  rewrite scopeLoop_cons_readable by (eapply originPath_readable; eassumption).
  unfold inScope. rewrite Hp, Hpre. reflexivity.
Qed.

(** A node whose directory fails the test of [scope] is out of scope. *)
Lemma scope_single_out c dir node p :
  scoped c dir ->
  originPath node = Some p ->
  strings.HasPrefix (scopedDir p) dir = false ->
  scope c dir [node] = ([], [node], None).
Proof.
  intros Hs Hp Hpre. rewrite scope_scoped by assumption.
  rewrite scopeLoop_cons_readable by (eapply originPath_readable; eassumption).
  unfold inScope. rewrite Hp, Hpre. reflexivity.
Qed.

(** The directory a Resource is scoped by, for a file in a plain directory
    whose last element is not [functions]. *)
Lemma scopedDir_dir (es : list (list ascii)) (file : list ascii) :
  Forall plain es -> es <> [] ->
  last es <> Some (bytes functionsDirectoryName) ->
  plain file ->
  scopedDir (plainPath (es ++ [file])) = plainPath es.
Proof.
  intros Hall Hne Hlast Hfile.
  destruct (exists_last Hne) as (es0 & d & ->).
  apply Forall_app in Hall. destruct Hall as [Hall0 Hd].
  inversion Hd as [| ? ? Hd' _]; subst.
  rewrite <- app_assoc. cbn [app].
  apply scopedDir_plain; try assumption.
  intros Heq. apply Hlast. rewrite last_snoc. f_equal.
  apply (f_equal bytes) in Heq. rewrite bytes_of_bytes in Heq. exact Heq.
Qed.

Lemma scopedDir_top (file : list ascii) :
  plain file -> scopedDir (plainPath [file]) = ".".
Proof.
  intros (_ & Hslash & _). unfold scopedDir.
  rewrite Dir_plain_file by assumption. reflexivity.
Qed.

(** A literal path element is plain. *)
Ltac plain_literal :=
  try (repeat split; try discriminate;
       let H := fresh "H" in
       vm_compute; intros H;
       repeat (destruct H as [H | H]; [discriminate H |]); exact H).

Lemma prefix_dot (d : string) : String.prefix d "." = true -> d = "" \/ d = ".".
Proof.
  destruct d as [| a [| b d']]; simpl; intros H; auto.
  - destruct (ascii_dec a "."); [subst; auto | discriminate].
  - destruct (ascii_dec a "."); discriminate.
Qed.

(** ** Directories below and above the scope *)

Lemma prefix_plainPath (es ds : list (list ascii)) :
  es <> [] -> String.prefix (plainPath es) (plainPath (es ++ ds)) = true.
Proof.
  intros Hne. unfold plainPath. destruct ds as [| d ds'].
  - rewrite app_nil_r. apply prefix_refl.
  - rewrite joinElements_app by (assumption || discriminate).
    apply prefix_of_bytes_app.
Qed.

(** The directory a Resource is scoped by, for a file in any plain
    directory: the directory, or its parent when it is named [functions];
    the top directory is [.]. *)
Lemma scopedDir_cases (es : list (list ascii)) (file : list ascii) :
  Forall plain es -> plain file ->
  scopedDir (plainPath (es ++ [file])) = "."
  \/ exists es0 rest,
       es = es0 ++ rest /\ es0 <> []
       /\ scopedDir (plainPath (es ++ [file])) = plainPath es0.
Proof.
  intros Hall Hfile.
  destruct es as [| e es'] eqn:Hes.
  { left. apply scopedDir_top. assumption. }
  rewrite <- Hes in *.
  assert (Hne : es <> []) by (subst es; discriminate).
  clear Hes e es'.
  destruct (decide (last es = Some (bytes functionsDirectoryName))) as [Hlast | Hlast].
  - apply last_Some in Hlast. destruct Hlast as [es0 ->].
    apply Forall_app in Hall. destruct Hall as [Hall0 _].
    rewrite <- app_assoc. cbn [app].
    rewrite scopedDir_functions by assumption.
    destruct es0 as [| e0 es0'] eqn:Hes0; [left; reflexivity |].
    right. exists (e0 :: es0'), [bytes functionsDirectoryName].
    split; [reflexivity |]. split; [discriminate | reflexivity].
  - right. exists es, []. rewrite app_nil_r.
    split; [reflexivity |]. split; [assumption |].
    apply scopedDir_dir; assumption.
Qed.

(** A Resource read from a file of a plain directory, or of any directory
    below it, passes the test of [scope] for that directory, unless the
    directory itself is named [functions]. *)
Lemma scopedDir_below (es ds : list (list ascii)) (file : list ascii) :
  Forall plain es -> es <> [] -> last es <> Some (bytes functionsDirectoryName) ->
  Forall plain ds -> plain file ->
  strings.HasPrefix (scopedDir (plainPath ((es ++ ds) ++ [file]))) (plainPath es) = true.
Proof.
  intros Hes Hne Hlast Hds Hfile. unfold strings.HasPrefix.
  assert (Hne' : es ++ ds <> []) by (destruct es; [contradiction | discriminate]).
  destruct (decide (last (es ++ ds) = Some (bytes functionsDirectoryName))) as [Hl | Hl].
  - destruct ds as [| d ds'] eqn:Hd.
    { rewrite app_nil_r in Hl. contradiction. }
    rewrite <- Hd in *.
    assert (Hdne : ds <> []) by (subst ds; discriminate).
    clear Hd d ds'.
    destruct (exists_last Hdne) as (ds0 & dl & ->).
    rewrite app_assoc in Hl. rewrite last_snoc in Hl. injection Hl as ->.
    apply Forall_app in Hds. destruct Hds as [Hds0 _].
    rewrite app_assoc, <- (app_assoc (es ++ ds0)). cbn [app].
    rewrite scopedDir_functions by (try apply Forall_app; auto).
    destruct (es ++ ds0) as [| e0 l0] eqn:Hes0.
    { destruct es; [contradiction | discriminate]. }
    rewrite <- Hes0. apply prefix_plainPath. assumption.
  - rewrite scopedDir_dir; try assumption.
    + apply prefix_plainPath. assumption.
    + apply Forall_app. split; assumption.
Qed.

(** A Resource read from a file of a plain directory fails the test of
    [scope] for every plain directory below that directory. *)
Lemma scopedDir_above (es ds : list (list ascii)) (file : list ascii) :
  Forall plain es -> Forall plain ds -> ds <> [] -> plain file ->
  strings.HasPrefix (scopedDir (plainPath (es ++ [file]))) (plainPath (es ++ ds)) = false.
Proof.
  intros Hes Hds Hne Hfile. unfold strings.HasPrefix.
  assert (Hall : Forall plain (es ++ ds)) by (apply Forall_app; split; assumption).
  assert (Hne' : es ++ ds <> []) by (destruct es; [assumption | discriminate]).
  destruct (plainPath_scoped _ Hall Hne') as [Hempty Hdot].
  destruct (String.prefix (plainPath (es ++ ds)) (scopedDir (plainPath (es ++ [file]))))
    eqn:Hpre; [| reflexivity].
  exfalso.
  destruct (scopedDir_cases es file Hes Hfile) as [Htop | (es0 & rest & Heq & Hne0 & Hdir)].
  - rewrite Htop in Hpre. apply prefix_dot in Hpre. tauto.
  - rewrite Hdir in Hpre. apply prefix_length in Hpre.
    subst es. unfold plainPath in Hpre. rewrite !of_bytes_length in Hpre.
    rewrite <- app_assoc in Hpre.
    assert (Hrest : rest ++ ds <> [])
      by (destruct rest; [cbn [app]; assumption | discriminate]).
    rewrite joinElements_app in Hpre by assumption.
    rewrite length_app in Hpre. simpl in Hpre. lia.
Qed.

(** X11: on plain paths (elements that are not empty, have no slash and
    are neither [.] nor [..]): a function whose configuration was read
    from a file of a directory that is not the top directory and whose last
    element is not [functions] has that directory as scope, and a Resource
    read from a file of that directory or of any directory below it, a
    directory named [functions] included, is in scope. *)
Theorem function_sees_directory_and_below (c : ContainerFilter) (node : RNode)
  (es ds : list (list ascii)) (fn file : list ascii) :
  Forall plain es -> es <> [] -> last es <> Some (bytes functionsDirectoryName) ->
  Forall plain ds ->
  plain fn -> plain file ->
  originPath (Config c) = Some (plainPath (es ++ [fn])) ->
  originPath node = Some (plainPath ((es ++ ds) ++ [file])) ->
  getFunctionScope c = (plainPath es, None)
  /\ scope c (plainPath es) [node] = ([node], [], None).
Proof.
  intros Hes Hne Hlast Hds Hfn Hfile Hc Hn.
  split.
  - rewrite (getFunctionScope_scopedDir _ _ Hc), scopedDir_dir by assumption.
    reflexivity.
  - apply (scope_single_in _ _ _ _ Hn). apply scopedDir_below; assumption.
Qed.

Lemma function_sees_directory_and_below_witness :
  let c := filterAt "apps/fn.yaml" "example.com/fn" false false in
  let node := resourceAt "apps/web/deployment.yaml" "Deployment" "web" in
  let fn := resourceAt "apps/web/functions/fn.yaml" "Example" "other" in
  getFunctionScope c = ("apps", None)
  /\ scope c "apps" [node] = ([node], [], None)
  /\ scope c "apps" [fn] = ([fn], [], None).
Proof.
  intros c node fn.
  split; [| split].
  - apply (function_sees_directory_and_below c node [bytes "apps"] [bytes "web"]
             (bytes "fn.yaml") (bytes "deployment.yaml"));
      try discriminate; try reflexivity; repeat constructor; plain_literal.
  - apply (function_sees_directory_and_below c node [bytes "apps"] [bytes "web"]
             (bytes "fn.yaml") (bytes "deployment.yaml"));
      try discriminate; try reflexivity; repeat constructor; plain_literal.
  - apply (function_sees_directory_and_below c fn [bytes "apps"]
             [bytes "web"; bytes "functions"] (bytes "fn.yaml") (bytes "fn.yaml"));
      try discriminate; try reflexivity; repeat constructor; plain_literal.
Defined.

(** X12: on plain paths: a function whose configuration was read from a
    file of the directory [functions] of a directory that is not the top
    directory and is not itself named [functions] has that directory, the
    parent of [functions], as scope; the configurations in [functions] are
    in scope, and so is a Resource read from a file of the parent or of
    any directory below it. *)
Theorem functions_directory_scopes_parent (c : ContainerFilter) (sibling node : RNode)
  (es ds : list (list ascii)) (fn fn' file : list ascii) :
  Forall plain es -> es <> [] -> last es <> Some (bytes functionsDirectoryName) ->
  Forall plain ds ->
  plain fn -> plain fn' -> plain file ->
  originPath (Config c) = Some (plainPath (es ++ [bytes functionsDirectoryName; fn])) ->
  originPath sibling = Some (plainPath (es ++ [bytes functionsDirectoryName; fn'])) ->
  originPath node = Some (plainPath ((es ++ ds) ++ [file])) ->
  getFunctionScope c = (plainPath es, None)
  /\ scope c (plainPath es) [sibling] = ([sibling], [], None)
  /\ scope c (plainPath es) [node] = ([node], [], None).
Proof.
  intros Hes Hne Hlast Hds Hfn Hfn' Hfile Hc Hs Hn.
  assert (Hfun : forall f, plain f ->
            scopedDir (plainPath (es ++ [bytes functionsDirectoryName; f])) = plainPath es).
  { intros f Hf. rewrite scopedDir_functions by assumption.
    destruct es; [contradiction | reflexivity]. }
  split; [| split].
  - rewrite (getFunctionScope_scopedDir _ _ Hc), Hfun by assumption. reflexivity.
  - apply (scope_single_in _ _ _ _ Hs). rewrite Hfun by assumption.
    apply prefix_refl.
  - apply (scope_single_in _ _ _ _ Hn). apply scopedDir_below; assumption.
Qed.

Lemma functions_directory_scopes_parent_witness :
  let c := filterAt "stuff/functions/fn.yaml" "example.com/fn" false false in
  let sibling := resourceAt "stuff/functions/other.yaml" "Example" "other" in
  let node := resourceAt "stuff/deployment.yaml" "Deployment" "web" in
  getFunctionScope c = ("stuff", None)
  /\ scope c "stuff" [sibling] = ([sibling], [], None)
  /\ scope c "stuff" [node] = ([node], [], None).
Proof.
  intros c sibling node.
  apply (functions_directory_scopes_parent c sibling node [bytes "stuff"] []
           (bytes "fn.yaml") (bytes "other.yaml") (bytes "deployment.yaml"));
    try discriminate; try reflexivity; repeat constructor; plain_literal.
Defined.

(** X13: on plain paths, with GlobalScope unset: for a scope directory
    [es/ds] that is strictly below a directory [es] ([es] may be the top
    directory, and either may be named [functions]), a Resource read from
    a file of [es] is out of scope; [es/ds] is the scope of the functions
    whose configuration was read from a file of [es/ds/functions], and of
    those read from a file of [es/ds] when [es/ds] is not named
    [functions]. *)
Theorem function_never_sees_directory_above (c : ContainerFilter) (node : RNode)
  (es ds : list (list ascii)) (fn file : list ascii) :
  GlobalScope c = false ->
  Forall plain es -> Forall plain ds -> ds <> [] ->
  plain fn -> plain file ->
  originPath node = Some (plainPath (es ++ [file])) ->
  scope c (plainPath (es ++ ds)) [node] = ([], [node], None)
  /\ (originPath (Config c)
        = Some (plainPath ((es ++ ds) ++ [bytes functionsDirectoryName; fn]))
      \/ (last (es ++ ds) <> Some (bytes functionsDirectoryName)
          /\ originPath (Config c) = Some (plainPath ((es ++ ds) ++ [fn]))) ->
      getFunctionScope c = (plainPath (es ++ ds), None)).
Proof.
  intros Hg Hes Hds Hne Hfn Hfile Hn.
  assert (Hall : Forall plain (es ++ ds)) by (apply Forall_app; split; assumption).
  assert (Hne' : es ++ ds <> []) by (destruct es; [assumption | discriminate]).
  destruct (plainPath_scoped _ Hall Hne') as [Hempty Hdot].
  split.
  - apply (scope_single_out _ _ _ _ (conj Hg (conj Hempty Hdot)) Hn).
    apply scopedDir_above; assumption.
  - intros [Hc | [Hlast Hc]]; rewrite (getFunctionScope_scopedDir _ _ Hc).
    + rewrite scopedDir_functions by assumption.
      destruct (es ++ ds); [contradiction | reflexivity].
    + rewrite scopedDir_dir by assumption. reflexivity.
Qed.

Lemma function_never_sees_directory_above_witness :
  let c := filterAt "apps/web/fn.yaml" "example.com/fn" false false in
  let node := resourceAt "apps/deployment.yaml" "Deployment" "web" in
  let c' := filterAt "functions/functions/functions/fn.yaml" "example.com/fn" false false in
  let node' := resourceAt "functions/x.yaml" "Deployment" "web" in
  (scope c "apps/web" [node] = ([], [node], None)
   /\ getFunctionScope c = ("apps/web", None))
  /\ (scope c' "functions/functions" [node'] = ([], [node'], None)
      /\ getFunctionScope c' = ("functions/functions", None)).
Proof.
  intros c node c' node'.
  assert (Hplain : Forall plain [bytes "apps"; bytes "web"; bytes "functions";
                                 bytes "fn.yaml"; bytes "deployment.yaml"; bytes "x.yaml"])
    by (repeat constructor; plain_literal).
  pose proof (proj1 (List.Forall_forall _ _) Hplain) as Hin.
  assert (Hone : forall e, In e [bytes "apps"; bytes "web"; bytes "functions"] ->
                   Forall plain [e]).
  { intros e He. constructor; [| constructor]. apply Hin. simpl in *. tauto. }
  split.
  - destruct (function_never_sees_directory_above c node [bytes "apps"] [bytes "web"]
                (bytes "fn.yaml") (bytes "deployment.yaml") eq_refl
                (Hone (bytes "apps") ltac:(simpl; tauto))
                (Hone (bytes "web") ltac:(simpl; tauto))
                ltac:(discriminate)
                (Hin (bytes "fn.yaml") ltac:(simpl; tauto))
                (Hin (bytes "deployment.yaml") ltac:(simpl; tauto))
                eq_refl) as [Hout Hscope].
    split; [exact Hout |].
    apply Hscope. right. split; [discriminate | reflexivity].
  - destruct (function_never_sees_directory_above c' node' [bytes "functions"]
                [bytes "functions"] (bytes "fn.yaml") (bytes "x.yaml") eq_refl
                (Hone (bytes "functions") ltac:(simpl; tauto))
                (Hone (bytes "functions") ltac:(simpl; tauto))
                ltac:(discriminate)
                (Hin (bytes "fn.yaml") ltac:(simpl; tauto))
                (Hin (bytes "x.yaml") ltac:(simpl; tauto))
                eq_refl) as [Hout Hscope].
    split; [exact Hout |].
    apply Hscope. left. reflexivity.
Defined.

(** X14: a function whose configuration was read from a file of the top
    directory, or of the directory [functions] of the top directory, has
    the scope [.], and every node is in scope, whatever its annotations. *)
Theorem function_at_top_sees_all (c : ContainerFilter) (fn : list ascii)
  (nodes : list RNode) :
  plain fn ->
  originPath (Config c) = Some (plainPath [fn])
  \/ originPath (Config c) = Some (plainPath [bytes functionsDirectoryName; fn]) ->
  getFunctionScope c = (".", None) /\ scope c "." nodes = (nodes, [], None).
Proof.
  intros Hfn Hc. split; [| apply scope_global; auto].
  destruct Hc as [Hc | Hc]; rewrite (getFunctionScope_scopedDir _ _ Hc).
  - rewrite scopedDir_top by assumption. reflexivity.
  - pose proof (scopedDir_functions [] fn (List.Forall_nil plain) Hfn) as Hd.
    cbn [app] in Hd. rewrite Hd. reflexivity.
Qed.

Lemma function_at_top_sees_all_witness :
  let c := filterAt "functions/fn.yaml" "example.com/fn" false false in
  let nodes := [resourceAt "apps/a.yaml" "ConfigMap" "a"; resourceNoPath "Service" "bar"] in
  getFunctionScope c = (".", None) /\ scope c "." nodes = (nodes, [], None).
Proof.
  intros c nodes.
  apply (function_at_top_sees_all c (bytes "fn.yaml") nodes).
  - plain_literal.
  - right. reflexivity.
Defined.


(** ** IsReconcilerFilter *)

(** One round of the loop: at most one of the two conditions holds. *)
Lemma reconciler_round (isFn : RNode -> bool) (c : IsReconcilerFilter)
  (node : RNode) (out : list RNode) :
  (let out1 := if isFn node && negb (ExcludeReconcilers c) then out ++ [node] else out in
   if negb (isFn node) && IncludeNonReconcilers c then out1 ++ [node] else out1)
  = if keeps isFn c node then out ++ [node] else out.
Proof.
  unfold keeps.
  destruct (isFn node), (ExcludeReconcilers c), (IncludeNonReconcilers c); reflexivity.
Qed.

Lemma reconcilerLoop_filter (isFn : RNode -> bool) (c : IsReconcilerFilter)
  (inputs : list RNode) : forall out,
  reconcilerLoop isFn c inputs out = out ++ filter (fun n => keeps isFn c n) inputs.
Proof.
  induction inputs as [| node rest IH]; intros out; cbn [reconcilerLoop].
  - rewrite app_nil_r. reflexivity.
  - cbv zeta. rewrite IH.
    pose proof (reconciler_round isFn c node out) as Hround. cbv zeta in Hround.
    rewrite Hround.
    destruct (keeps isFn c node) eqn:Hk.
    + rewrite filter_cons_True by (rewrite Hk; exact I).
      rewrite <- app_assoc. reflexivity.
    + rewrite filter_cons_False by (rewrite Hk; simpl; tauto).
      reflexivity.
Qed.

(** X15: [IsReconcilerFilter.Filter] never returns an error; it returns
    every function Resource unless ExcludeReconcilers is set and every
    other Resource only if IncludeNonReconcilers is set, each once and in
    the order of the input. *)
Theorem IsReconcilerFilter_selects (isFn : RNode -> bool) (c : IsReconcilerFilter)
  (inputs : list RNode) :
  (IsReconcilerFilter_Filter isFn c inputs).2 = None
  /\ (IsReconcilerFilter_Filter isFn c inputs).1 = filter (fun n => keeps isFn c n) inputs
  /\ (IsReconcilerFilter_Filter isFn c inputs).1 `sublist_of` inputs.
Proof.
  unfold IsReconcilerFilter_Filter. cbn [fst snd].
  rewrite reconcilerLoop_filter. cbn [app].
  split; [reflexivity |]. split; [reflexivity |]. apply sublist_filter.
Qed.

(** X16: with ExcludeReconcilers unset and IncludeNonReconcilers set,
    [IsReconcilerFilter.Filter] returns its input as it is; with
    ExcludeReconcilers set and IncludeNonReconcilers unset it returns no
    Resource, whatever the input. *)
Theorem IsReconcilerFilter_all_or_nothing (isFn : RNode -> bool) (c : IsReconcilerFilter)
  (inputs : list RNode) :
  (ExcludeReconcilers c = false -> IncludeNonReconcilers c = true ->
   IsReconcilerFilter_Filter isFn c inputs = (inputs, None))
  /\ (ExcludeReconcilers c = true -> IncludeNonReconcilers c = false ->
      IsReconcilerFilter_Filter isFn c inputs = ([], None)).
Proof.
  unfold IsReconcilerFilter_Filter. rewrite reconcilerLoop_filter. cbn [app].
  split; intros Hex Hin; f_equal.
  - apply filter_Forall_id. apply Forall_forall. intros n _.
    unfold keeps. rewrite Hex, Hin. destruct (isFn n); exact I.
  - apply filter_Forall_nil. apply Forall_forall. intros n _.
    unfold keeps. rewrite Hex, Hin. destruct (isFn n); simpl; tauto.
Qed.

Lemma IsReconcilerFilter_all_or_nothing_witness :
  let isFn := fun n : RNode =>
                match meta n with inr m => String.eqb (Kind m) "Example" | inl _ => false end in
  let nodes := [resourceNoPath "Example" "fn"; resourceNoPath "Service" "bar"] in
  IsReconcilerFilter_Filter isFn (mkIsReconcilerFilter false true) nodes = (nodes, None)
  /\ IsReconcilerFilter_Filter isFn (mkIsReconcilerFilter true false) nodes = ([], None).
Proof.
  intros isFn nodes. split.
  - apply (IsReconcilerFilter_all_or_nothing isFn (mkIsReconcilerFilter false true) nodes);
      reflexivity.
  - apply (IsReconcilerFilter_all_or_nothing isFn (mkIsReconcilerFilter true false) nodes);
      reflexivity.
Defined.

(** ** Directories that share the beginning of a name *)

Lemma joinElements_last_app (es : list (list ascii)) (d x : list ascii) :
  joinElements (es ++ [d ++ x]) = joinElements (es ++ [d]) ++ x.
Proof.
  destruct es as [| e rest]; [reflexivity |].
  rewrite !joinElements_snoc by discriminate.
  rewrite <- app_assoc. reflexivity.
Qed.

(** X17: the test of [scope] is on the bytes of the directory, not on its
    elements: on plain paths, for a function whose configuration was read
    from a file of the directory [es/d], a Resource read from a file of the
    directory [es/dx], whose name begins with the name [d], is in scope,
    provided neither [d] nor [dx] is the reserved name [functions]. *)
Theorem scope_includes_longer_names (c : ContainerFilter) (node : RNode)
  (es : list (list ascii)) (d x fn file : list ascii) :
  Forall plain es -> plain d -> plain (d ++ x) ->
  d <> bytes functionsDirectoryName -> d ++ x <> bytes functionsDirectoryName ->
  plain fn -> plain file ->
  originPath (Config c) = Some (plainPath ((es ++ [d]) ++ [fn])) ->
  originPath node = Some (plainPath ((es ++ [d ++ x]) ++ [file])) ->
  getFunctionScope c = (plainPath (es ++ [d]), None)
  /\ scope c (plainPath (es ++ [d])) [node] = ([node], [], None).
Proof.
  intros Hes Hd Hdx Hnd Hndx Hfn Hfile Hc Hn.
  assert (Hlast : forall e : list ascii, e <> bytes functionsDirectoryName ->
            last (es ++ [e]) <> Some (bytes functionsDirectoryName)).
  { intros e He. rewrite last_snoc. congruence. }
  assert (Hall : forall e, plain e -> Forall plain (es ++ [e])).
  { intros e He. apply Forall_app. split; [assumption |].
    constructor; [assumption | constructor]. }
  assert (Hne : forall e : list ascii, es ++ [e] <> []) by (intros e; destruct es; discriminate).
  split.
  - rewrite (getFunctionScope_scopedDir _ _ Hc), scopedDir_dir by auto. reflexivity.
  - apply (scope_single_in _ _ _ _ Hn).
    rewrite scopedDir_dir by auto.
    unfold strings.HasPrefix, plainPath. rewrite joinElements_last_app.
    apply prefix_of_bytes_app.
Qed.

Lemma scope_includes_longer_names_witness :
  let c := filterAt "team/apps/fn.yaml" "example.com/fn" false false in
  let node := resourceAt "team/apps-staging/deployment.yaml" "Deployment" "web" in
  getFunctionScope c = ("team/apps", None)
  /\ scope c "team/apps" [node] = ([node], [], None).
Proof.
  intros c node.
  apply (scope_includes_longer_names c node [bytes "team"] (bytes "apps") (bytes "-staging")
           (bytes "fn.yaml") (bytes "deployment.yaml"));
    try discriminate; try reflexivity; repeat constructor; plain_literal.
Defined.

(** * The cleaned directory *)

(** ** The rounds of the loop of [Clean] *)









(** ** The buffer of the kept elements *)









(** ** One element more *)






(** ** The loop of [Clean] keeps the elements of the rules *)


(** ** The kept elements have their form *)








(** ** [Clean] follows the rules *)



(** ** Rendered paths *)







(** ** [Dir] and [Base] follow the rules *)








(** ** The elements of a path *)




(** ** The scope directory follows the rules *)



